(** * Trend analysis and forecasting engine of the currency dashboard

    Shallow embedding of [client/src/lib/trendAnalysis.ts] and of the
    forecast and statistics code of [server/routes.ts] (both build
    variants), with the properties of the regression fitter, the forecast
    generator, the trend and confidence analyzer and the statistics
    summarizer.

    Numbers.  A TypeScript [number] is embedded as [JS.number]: a finite
    value carried as an exact rational, or one of the three IEEE special
    values [+Infinity], [-Infinity], [NaN].  Arithmetic on finite values
    is exact (rounding and overflow of binary64 are not part of this
    model, and zero carries no sign: a zero divisor behaves as [+0]); the
    special values follow IEEE 754 as ECMAScript prescribes, so a
    division [0/0] yields [NaN] and comparisons with [NaN] are false.
    The general theorems are theorems of this exact model; a theorem
    whose statement depends on the value of finite arithmetic says so
    (in exact arithmetic) in its comment.

    Errors.  The code validates nothing and throws nothing of its own.
    The one error modelled is the RangeError [Array.from] throws on a
    length beyond 2^32 - 1 ([generateForecast_call]); the theorems on
    the request handlers are stated for requests within [maxDays] days.

    Module [Binary64] repeats the translation of the numeric functions
    over primitive binary64 floats; module [Rounding] evaluates them at
    the inputs where rounding separates the running code from the exact
    model. *)

From Stdlib Require Import QArith Qabs Qround Lqa Lia ZArith List Bool.
From Stdlib Require Import Sorted Permutation.
From Stdlib Require Strings.String Floats Uint63.
Import String.StringSyntax.
Delimit Scope string_scope with string.
Import ListNotations.

Open Scope Q_scope.

(* ================================================================== *)
(** ** ECMAScript numbers and the array primitives the code uses      *)
(* ================================================================== *)

Module JS.

Inductive number : Type :=
| Fin (q : Q)
| PosInf
| NegInf
| NaN.

Definition isNaN (a : number) : bool :=
  match a with NaN => true | _ => false end.

Definition isFinite (a : number) : bool :=
  match a with Fin _ => true | _ => false end.

(** [a + b] *)
Definition add (a b : number) : number :=
  match a, b with
  | NaN, _ | _, NaN => NaN
  | Fin p, Fin q => Fin (p + q)
  | PosInf, NegInf | NegInf, PosInf => NaN
  | PosInf, _ | _, PosInf => PosInf
  | NegInf, _ | _, NegInf => NegInf
  end.

(** [a - b] *)
Definition sub (a b : number) : number :=
  match a, b with
  | NaN, _ | _, NaN => NaN
  | Fin p, Fin q => Fin (p - q)
  | PosInf, PosInf | NegInf, NegInf => NaN
  | PosInf, _ | _, NegInf => PosInf
  | NegInf, _ | _, PosInf => NegInf
  end.

(** An infinity times the finite [q]: the sign of [q] decides, that of the
    infinity being given by [positive]; [0 * Infinity] is [NaN]. *)
Definition inf_signed (positive : bool) (q : Q) : number :=
  match q ?= 0 with
  | Eq => NaN
  | Gt => if positive then PosInf else NegInf
  | Lt => if positive then NegInf else PosInf
  end.

(** [a * b] *)
Definition mul (a b : number) : number :=
  match a, b with
  | NaN, _ | _, NaN => NaN
  | Fin p, Fin q => Fin (p * q)
  | PosInf, Fin q | Fin q, PosInf => inf_signed true q
  | NegInf, Fin q | Fin q, NegInf => inf_signed false q
  | PosInf, PosInf | NegInf, NegInf => PosInf
  | PosInf, NegInf | NegInf, PosInf => NegInf
  end.

(** [a / b].  A finite value over zero is an infinity with the sign of
    the dividend, and [0 / 0] is [NaN]. *)
Definition div (a b : number) : number :=
  match a, b with
  | NaN, _ | _, NaN => NaN
  | Fin p, Fin q =>
      match q ?= 0 with
      | Eq => match p ?= 0 with
              | Eq => NaN
              | Gt => PosInf
              | Lt => NegInf
              end
      | _ => Fin (p / q)
      end
  | Fin _, (PosInf | NegInf) => Fin 0
  | (PosInf | NegInf), (PosInf | NegInf) => NaN
  | PosInf, Fin q => match q ?= 0 with Lt => NegInf | _ => PosInf end
  | NegInf, Fin q => match q ?= 0 with Lt => PosInf | _ => NegInf end
  end.

(** [a < b]; false as soon as one side is [NaN]. *)
Definition lt (a b : number) : bool :=
  match a, b with
  | NaN, _ | _, NaN => false
  | Fin p, Fin q => match p ?= q with Lt => true | _ => false end
  | NegInf, (Fin _ | PosInf) => true
  | Fin _, PosInf => true
  | _, _ => false
  end.

(** [a > b] *)
Definition gt (a b : number) : bool := lt b a.

(** [Math.max(...args)]: [NaN] when an argument is [NaN], otherwise the
    largest argument, starting from [-Infinity]. *)
Definition Math_max (args : list number) : number :=
  if existsb isNaN args then NaN
  else fold_left (fun highest v => if gt v highest then v else highest)
                 args NegInf.

(** [Math.min(...args)]: [NaN] when an argument is [NaN], otherwise the
    smallest argument, starting from [+Infinity]. *)
Definition Math_min (args : list number) : number :=
  if existsb isNaN args then NaN
  else fold_left (fun lowest v => if lt v lowest then v else lowest)
                 args PosInf.

(** [Math.pow(b, 2)] *)
Definition Math_pow2 (b : number) : number := mul b b.

(** [Math.floor(a)] *)
Definition Math_floor (a : number) : number :=
  match a with
  | Fin q => Fin (inject_Z (Qfloor q))
  | _ => a
  end.

(** The number of a length or of an index. *)
Definition of_nat (n : nat) : number := Fin (inject_Z (Z.of_nat n)).

(** [Array.from({ length: n }, (_, i) => f i)] *)
Definition Array_from {A : Type} (n : nat) (f : nat -> A) : list A :=
  map f (seq 0 n).

(** [l.reduce((acc, val, i) => f acc val i, init)], the callback being
    applied from the first element to the last. *)
Fixpoint reduce_from {A B : Type} (f : B -> A -> nat -> B)
         (l : list A) (i : nat) (acc : B) : B :=
  match l with
  | [] => acc
  | v :: t => reduce_from f t (S i) (f acc v i)
  end.

Definition reduce {A B : Type} (f : B -> A -> nat -> B)
           (l : list A) (init : B) : B :=
  reduce_from f l 0 init.

(** [l[i]] used as an operand: an index out of range reads [undefined],
    which arithmetic converts to [NaN]. *)
Definition at_index (l : list number) (i : nat) : number := nth i l NaN.

(** [l[l.length - 1]]; on the empty array the index is [-1] and the
    read is [undefined]. *)
Definition at_last (l : list number) : number :=
  match l with
  | [] => NaN
  | _ => at_index l (length l - 1)
  end.

(** [parseFloat(a.toFixed(d))] for [d] decimals: the nearest multiple of
    [10^-d], a tie going away from zero; values of magnitude [10^21] and
    more are printed in full and read back unchanged, and so are the
    special values. *)
Definition round_half_away (q : Q) : Z :=
  match (q ?= 0)%Q with
  | Lt => Z.opp (Qfloor (- q + (1 # 2))%Q)
  | _ => Qfloor (q + (1 # 2))%Q
  end.

Definition toFixed_parsed (d : nat) (a : number) : number :=
  match a with
  | Fin q =>
      if Qle_bool (inject_Z (10 ^ 21)) (Qabs q) then Fin q
      else Fin (inject_Z (round_half_away (q * inject_Z (10 ^ Z.of_nat d)))
                / inject_Z (10 ^ Z.of_nat d))
  | _ => a
  end.

End JS.

Declare Scope js_scope.
Delimit Scope js_scope with js.
Bind Scope js_scope with JS.number.
Infix "+" := JS.add : js_scope.
Infix "-" := JS.sub : js_scope.
Infix "*" := JS.mul : js_scope.
Infix "/" := JS.div : js_scope.
Notation "a >? b" := (JS.gt a b) (at level 70) : js_scope.
Notation "a <? b" := (JS.lt a b) (at level 70) : js_scope.

Import JS.


(* ================================================================== *)
(** ** client/src/lib/trendAnalysis.ts                                *)
(* ================================================================== *)

Record RegressionFit : Type := { slope : number; intercept : number }.

(** [linearRegression], identical in [trendAnalysis.ts] and in both
    variants of [server/routes.ts]. *)
Definition linearRegression (rates : list number) : RegressionFit :=
  let x := Array_from (length rates) of_nat in
  let n := of_nat (length rates) in
  let sumX := reduce (fun sum val _ => sum + val)%js x (Fin 0) in
  let sumY := reduce (fun sum val _ => sum + val)%js rates (Fin 0) in
  let sumXY := reduce (fun sum val i => sum + val * at_index rates i)%js x (Fin 0) in
  let sumXX := reduce (fun sum val _ => sum + val * val)%js x (Fin 0) in
  let slope := ((n * sumXY - sumX * sumY) / (n * sumXX - sumX * sumX))%js in
  let intercept := ((sumY - slope * sumX) / n)%js in
  {| slope := slope; intercept := intercept |}.

(** *** Math.random

    The pseudo-random generator is the only state of the engine.  Its
    state is the stream of the values it will still return; a call
    returns the head and leaves the tail.  [Rand] threads it through the
    code in call order. *)

Definition rng : Type := nat -> Q.

Definition Rand (A : Type) : Type := rng -> A * rng.

Definition ret {A : Type} (a : A) : Rand A := fun g => (a, g).

Definition bind {A B : Type} (c : Rand A) (k : A -> Rand B) : Rand B :=
  fun g => let (a, g') := c g in k a g'.

Notation "x <- c ;; k" := (bind c (fun x => k))
  (at level 61, c at next level, right associativity).

Definition Math_random : Rand number :=
  fun g => (Fin (g 0%nat), fun k => g (S k)).

(** What [Math.random] promises: every value lies in [[0, 1)]. *)
Definition rng_ok (g : rng) : Prop := forall k, 0 <= g k /\ g k < 1.

(** [Array.from({ length: n }, (_, i) => f i)] for a callback that draws
    random numbers: the callback runs for [i = 0, 1, ..] in this order. *)
Fixpoint Array_from_rand_at {A : Type} (n i : nat) (f : nat -> Rand A)
  : Rand (list A) :=
  match n with
  | O => ret []
  | S m => v <- f i ;; t <- Array_from_rand_at m (S i) f ;; ret (v :: t)
  end.

Definition Array_from_rand {A : Type} (n : nat) (f : nat -> Rand A)
  : Rand (list A) :=
  Array_from_rand_at n 0 f.

(** [Array.from] makes an array of at most 2^32 - 1 elements and throws
    beyond. *)
Definition Array_maxLength : Z := 4294967295.

(** [generateForecast], identical in [trendAnalysis.ts] and in both
    variants of [server/routes.ts]: the array the call returns when
    [Array.from] accepts the length, that is for [days] up to
    [Array_maxLength].  The length handed to [Array.from] is [days]
    clamped at zero. *)
Definition generateForecast (rates : list number) (days : Z)
  : Rand (list number) :=
  let fit := linearRegression rates in
  let lastX := (of_nat (length rates) - Fin 1)%js in
  Array_from_rand (Z.to_nat days) (fun i =>
    let x := (lastX + of_nat i + Fin 1)%js in
    let predictedValue := (slope fit * x + intercept fit)%js in
    r <- Math_random ;;
    let noise := ((r - Fin 0.5) * Fin 0.002)%js in
    ret (predictedValue + noise)%js).

(** How a call completes: it returns a value, or it throws the
    RangeError of an invalid array length. *)
Inductive completion (A : Type) : Type :=
| Returns (value : A)
| Throws_RangeError.

Arguments Returns {A} value.
Arguments Throws_RangeError {A}.

(** The whole call of [generateForecast].  [Array.from] creates the
    array of the length asked for before it runs the callback: for
    [days] beyond [Array_maxLength] the call throws, whatever the
    series, and no random number is drawn. *)
Definition generateForecast_call (rates : list number) (days : Z) (g : rng)
  : completion (list number * rng) :=
  if (Array_maxLength <? days)%Z then Throws_RangeError
  else Returns (generateForecast rates days g).

Record Statistics : Type :=
  { average : number; min : number; max : number; volatility : number }.

(** [calculateStatistics] *)
Definition calculateStatistics (rates : list number) : Statistics :=
  let min := Math_min rates in
  let max := Math_max rates in
  let average :=
    (reduce (fun sum rate _ => sum + rate) rates (Fin 0)
     / of_nat (length rates))%js in
  let volatility := (((max - min) / average) * Fin 100)%js in
  {| average := average; min := min; max := max; volatility := volatility |}.

(** [calculateConfidence] *)
Definition calculateConfidence (rates : list number) : number :=
  let fit := linearRegression rates in
  let x := Array_from (length rates) of_nat in
  let predictions := map (fun x => slope fit * x + intercept fit)%js x in
  let yMean :=
    (reduce (fun sum y _ => sum + y) rates (Fin 0)
     / of_nat (length rates))%js in
  let ssTotal :=
    reduce (fun sum y _ => sum + Math_pow2 (y - yMean))%js rates (Fin 0) in
  let ssResidual :=
    reduce (fun sum y i => sum + Math_pow2 (y - at_index predictions i))%js
           rates (Fin 0) in
  let rSquared := (Fin 1 - (ssResidual / ssTotal))%js in
  Math_min [Fin 95; Math_max [Fin 50; (rSquared * Fin 100)%js]].

Inductive Direction : Type := up | down | stable.

Record TrendSummary : Type :=
  { direction : Direction; percentChange : number }.

(** [analyzeTrend] *)
Definition analyzeTrend (rates : list number) : TrendSummary :=
  let slope := slope (linearRegression rates) in
  let firstRate := at_index rates 0 in
  let lastRate := at_last rates in
  let percentChange := (((lastRate - firstRate) / firstRate) * Fin 100)%js in
  let direction :=
    if (slope >? Fin 0.0001)%js then up
    else if (slope <? Fin (-0.0001))%js then down
    else stable in
  {| direction := direction; percentChange := percentChange |}.

(* ================================================================== *)
(** ** server/routes.ts                                               *)
(* ================================================================== *)

(** The statistics block of [/api/historical], the same in both variants
    of the file and on both branches of the first. *)
Definition historicalStatistics (rateValues : list number) : Statistics :=
  let avg :=
    (reduce (fun a b _ => a + b) rateValues (Fin 0)
     / of_nat (length rateValues))%js in
  let min := Math_min rateValues in
  let max := Math_max rateValues in
  let volatility := (((max - min) / avg) * Fin 100)%js in
  {| average := avg; min := min; max := max;
     volatility := toFixed_parsed 2 volatility |}.

(** One entry of the [forecast] array of the response: the date is
    [today] plus [dayOffset] days. *)
Record ForecastPoint : Type := { dayOffset : nat; rate : number }.

Record Analysis : Type :=
  { analysis_percentChange : number;
    analysis_direction : Direction;
    confidence : number;
    expectedHigh : number;
    expectedLow : number }.

Record ForecastResponse : Type :=
  { forecast : list ForecastPoint; analysis : Analysis }.

(** [forecastRates.map((rate, i) => ({ date: today + i + 1 days, rate }))] *)
Definition datedForecast (forecastRates : list number) : list ForecastPoint :=
  map (fun ir => {| dayOffset := fst ir + 1; rate := snd ir |})
      (combine (seq 0 (length forecastRates)) forecastRates).

(** The trend analysis of [/api/forecast] in the variant with hardcoded
    rates: percent change between the first and the last forecast point,
    direction from the percent change. *)
Definition forecastPercentChange (forecastRates : list number) : number :=
  let startRate := at_index forecastRates 0 in
  let endRate := at_last forecastRates in
  (((endRate - startRate) / startRate) * Fin 100)%js.

Definition forecastDirection (percentChange : number) : Direction :=
  if (percentChange >? Fin 0.5)%js then up
  else if (percentChange <? Fin (-0.5))%js then down
  else stable.

(** [for (let i = 0; i < n; i++) { ... historicalRates.push(...) }] *)
Fixpoint push_loop (n : nat) (body : Rand number) (acc : list number)
  : Rand (list number) :=
  match n with
  | O => ret acc
  | S m => v <- body ;; push_loop m body (acc ++ [v])
  end.

(** [/api/forecast], variant with hardcoded rates, from the base rate of
    the pair on.  [days] is the value of [parseInt(req.query.days) || 30];
    the answer is the one of a request within [maxDays], for which
    neither [Array.from] nor [toISOString] throws. *)
Definition forecastEndpoint (baseRate : number) (days : Z)
  : Rand ForecastResponse :=
  historicalRates <-
    push_loop 90
      (r <- Math_random ;;
       let variation := ((r - Fin 0.5) * Fin 0.06 * baseRate)%js in
       ret (baseRate + variation)%js) [] ;;
  forecastRates <- generateForecast historicalRates days ;;
  let forecast := datedForecast forecastRates in
  let percentChange := forecastPercentChange forecastRates in
  let direction := forecastDirection percentChange in
  r <- Math_random ;;
  let confidence := Math_floor (Fin 65 + r * Fin 20)%js in
  ret {| forecast := forecast;
         analysis :=
           {| analysis_percentChange := toFixed_parsed 2 percentChange;
              analysis_direction := direction;
              confidence := confidence;
              expectedHigh := toFixed_parsed 4 (baseRate * Fin 1.03)%js;
              expectedLow := toFixed_parsed 4 (baseRate * Fin 0.97)%js |} |}.

(** [parseInt(req.query.days) || 30]: a missing or unparsable parameter
    is [NaN], and [NaN] and [0] both fall back to 30. *)
Definition daysParameter (parsed : option Z) : Z :=
  match parsed with
  | Some 0%Z | None => 30%Z
  | Some d => d
  end.

(** The hardcoded [baseRates] table of the handler. *)
Definition baseRates : list (String.string * list (String.string * Q)) :=
  [ ("USD", [("EUR", 0.92); ("INR", 83.72); ("DKK", 6.87); ("AED", 3.67)]);
    ("EUR", [("USD", 1.09); ("INR", 91.00); ("DKK", 7.47); ("AED", 4.00)]);
    ("INR", [("USD", 0.012); ("EUR", 0.011); ("DKK", 0.082); ("AED", 0.044)]);
    ("DKK", [("USD", 0.146); ("EUR", 0.134); ("INR", 12.19); ("AED", 0.535)]);
    ("AED", [("USD", 0.272); ("EUR", 0.25); ("INR", 22.81); ("DKK", 1.87)]) ]%string.

Fixpoint lookup {V : Type} (key : String.string)
         (table : list (String.string * V))
  : option V :=
  match table with
  | [] => None
  | (k, v) :: rest => if String.eqb key k then Some v else lookup key rest
  end.

(** The base rate of a pair: 1.0 for a currency against itself and for a
    pair the table does not hold (a zero entry would count as missing). *)
Definition baseRateOf (baseCurrency targetCurrency : String.string) : number :=
  if String.eqb baseCurrency targetCurrency then Fin 1.0
  else match lookup baseCurrency baseRates with
       | Some row =>
           match lookup targetCurrency row with
           | Some r => if Qeq_bool r 0 then Fin 1.0 else Fin r
           | None => Fin 1.0
           end
       | None => Fin 1.0
       end.

(** The whole handler, from the upper-cased currency codes and the
    parsed [days] parameter of the request. *)
Definition forecastHandler (baseCurrency targetCurrency : String.string)
           (parsedDays : option Z) : Rand ForecastResponse :=
  forecastEndpoint (baseRateOf baseCurrency targetCurrency)
                   (daysParameter parsedDays).

(* ================================================================== *)
(** ** server/storage.ts                                              *)
(* ================================================================== *)

(** [Map<number, V>]: the entries in insertion order.  [set] replaces the
    value of a key the map holds and appends a new key at the end. *)
Definition JsMap (V : Type) : Type := list (Z * V).

Fixpoint Map_set {V : Type} (key : Z) (value : V) (m : JsMap V) : JsMap V :=
  match m with
  | [] => [(key, value)]
  | (k, v) :: rest =>
      if (k =? key)%Z then (key, value) :: rest
      else (k, v) :: Map_set key value rest
  end.

Fixpoint Map_get {V : Type} (key : Z) (m : JsMap V) : option V :=
  match m with
  | [] => None
  | (k, v) :: rest => if (k =? key)%Z then Some v else Map_get key rest
  end.

(** [Array.from(m.values())] *)
Definition Map_values {V : Type} (m : JsMap V) : list V := map snd m.

(** [l.sort(compare)] for a comparator that returns a number: the sort
    is stable, an element goes before the elements it does not compare
    greater than.  For a comparator that is an ordering the result does
    not depend on the algorithm; it is computed here by insertion. *)
Fixpoint sort_insert {A : Type} (compare : A -> A -> Z) (x : A)
         (sorted : list A) : list A :=
  match sorted with
  | [] => [x]
  | y :: rest =>
      if (compare x y <=? 0)%Z then x :: sorted
      else y :: sort_insert compare x rest
  end.

Fixpoint Array_sort {A : Type} (compare : A -> A -> Z) (l : list A) : list A :=
  match l with
  | [] => []
  | x :: rest => sort_insert compare x (Array_sort compare rest)
  end.

(** [l.slice(0, end)]: a negative [end] counts from the end of the
    array. *)
Definition Array_slice_to {A : Type} (end_ : Z) (l : list A) : list A :=
  if (end_ <? 0)%Z then firstn (Z.to_nat (Z.of_nat (length l) + end_)) l
  else firstn (Z.to_nat end_) l.

(** The records of [shared/schema.ts].  Identifiers are integers, dates
    are their [getTime()] in milliseconds. *)
Module InsertUser.
Record t : Type := { username : String.string; password : String.string }.
End InsertUser.

Module User.
Record t : Type :=
  { id : Z; username : String.string; password : String.string }.
End User.

Module InsertConversion.
Record t : Type :=
  { amount : number;
    fromCurrency : String.string;
    toCurrency : String.string;
    rate : number;
    result : number }.
End InsertConversion.

Module Conversion.
Record t : Type :=
  { id : Z;
    amount : number;
    fromCurrency : String.string;
    toCurrency : String.string;
    rate : number;
    result : number;
    createdAt : Z }.
End Conversion.

Module InsertExchangeRate.
Record t : Type :=
  { baseCurrency : String.string;
    targetCurrency : String.string;
    rate : number;
    date : Z }.
End InsertExchangeRate.

Module ExchangeRate.
Record t : Type :=
  { id : Z;
    baseCurrency : String.string;
    targetCurrency : String.string;
    rate : number;
    date : Z }.
End ExchangeRate.

(** [class MemStorage].  Its methods are [async] without an [await]:
    each runs to its end when called, so a method is a function from the
    state before to the result and the state after.  [new Date()] is
    the argument [now]. *)
Module MemStorage.

Record t : Type :=
  { users : JsMap User.t;
    conversionRecords : JsMap Conversion.t;
    exchangeRateRecords : JsMap ExchangeRate.t;
    userId : Z;
    conversionId : Z;
    exchangeRateId : Z }.

Definition constructor : t :=
  {| users := []; conversionRecords := []; exchangeRateRecords := [];
     userId := 1; conversionId := 1; exchangeRateId := 1 |}.

Definition getUser (id : Z) (this : t) : option User.t :=
  Map_get id (users this).

Definition getUserByUsername (username : String.string) (this : t)
  : option User.t :=
  find (fun user => String.eqb (User.username user) username)
       (Map_values (users this)).

Definition createUser (insertUser : InsertUser.t) (this : t) : User.t * t :=
  let id := userId this in
  let user :=
    {| User.id := id;
       User.username := InsertUser.username insertUser;
       User.password := InsertUser.password insertUser |} in
  (user,
   {| users := Map_set id user (users this);
      conversionRecords := conversionRecords this;
      exchangeRateRecords := exchangeRateRecords this;
      userId := (id + 1)%Z;
      conversionId := conversionId this;
      exchangeRateId := exchangeRateId this |}).

Definition saveConversion (insertConversion : InsertConversion.t) (now : Z)
           (this : t) : Conversion.t * t :=
  let id := conversionId this in
  let conversion :=
    {| Conversion.id := id;
       Conversion.amount := InsertConversion.amount insertConversion;
       Conversion.fromCurrency := InsertConversion.fromCurrency insertConversion;
       Conversion.toCurrency := InsertConversion.toCurrency insertConversion;
       Conversion.rate := InsertConversion.rate insertConversion;
       Conversion.result := InsertConversion.result insertConversion;
       Conversion.createdAt := now |} in
  (conversion,
   {| users := users this;
      conversionRecords := Map_set id conversion (conversionRecords this);
      exchangeRateRecords := exchangeRateRecords this;
      userId := userId this;
      conversionId := (id + 1)%Z;
      exchangeRateId := exchangeRateId this |}).

(** [limit] is [None] for [undefined] and for [NaN]; these and 0 are
    falsy and give the whole list. *)
Definition getConversions (limit : option Z) (this : t) : list Conversion.t :=
  let conversions :=
    Array_sort (fun a b => (Conversion.createdAt b - Conversion.createdAt a)%Z)
               (Map_values (conversionRecords this)) in
  match limit with
  | None | Some 0%Z => conversions
  | Some l => Array_slice_to l conversions
  end.

Definition saveExchangeRate (insertRate : InsertExchangeRate.t) (this : t)
  : ExchangeRate.t * t :=
  let id := exchangeRateId this in
  let rate :=
    {| ExchangeRate.id := id;
       ExchangeRate.baseCurrency := InsertExchangeRate.baseCurrency insertRate;
       ExchangeRate.targetCurrency := InsertExchangeRate.targetCurrency insertRate;
       ExchangeRate.rate := InsertExchangeRate.rate insertRate;
       ExchangeRate.date := InsertExchangeRate.date insertRate |} in
  (rate,
   {| users := users this;
      conversionRecords := conversionRecords this;
      exchangeRateRecords := Map_set id rate (exchangeRateRecords this);
      userId := userId this;
      conversionId := conversionId this;
      exchangeRateId := (id + 1)%Z |}).

(** Whether a stored rate is of the pair. *)
Definition ofPair (baseCurrency targetCurrency : String.string)
           (rate : ExchangeRate.t) : bool :=
  String.eqb (ExchangeRate.baseCurrency rate) baseCurrency
  && String.eqb (ExchangeRate.targetCurrency rate) targetCurrency.

(** [daysBefore t d] is the time of the date [t] after
    [setDate(getDate() - d)], that is [d] calendar days earlier in the
    time zone of the server; [now] is the clock. *)
Definition getExchangeRates (daysBefore : Z -> Z -> Z) (now : Z)
           (baseCurrency targetCurrency : String.string) (days : Z)
           (this : t) : list ExchangeRate.t :=
  let targetDate := daysBefore now days in
  Array_sort (fun a b => (ExchangeRate.date a - ExchangeRate.date b)%Z)
    (filter (fun rate =>
               ofPair baseCurrency targetCurrency rate
               && (targetDate <=? ExchangeRate.date rate)%Z)
            (Map_values (exchangeRateRecords this))).

Definition getLatestExchangeRate (baseCurrency targetCurrency : String.string)
           (this : t) : option ExchangeRate.t :=
  let rates :=
    Array_sort (fun a b => (ExchangeRate.date b - ExchangeRate.date a)%Z)
      (filter (ofPair baseCurrency targetCurrency)
              (Map_values (exchangeRateRecords this))) in
  match rates with
  | [] => None
  | first :: _ => Some first
  end.

(** The calls that change the store. *)
Inductive call : Type :=
| CreateUser (insertUser : InsertUser.t)
| SaveConversion (insertConversion : InsertConversion.t) (now : Z)
| SaveExchangeRate (insertRate : InsertExchangeRate.t).

Definition perform (this : t) (c : call) : t :=
  match c with
  | CreateUser u => snd (createUser u this)
  | SaveConversion c now => snd (saveConversion c now this)
  | SaveExchangeRate r => snd (saveExchangeRate r this)
  end.

(** The stores the module can be in: [storage = new MemStorage()]
    followed by calls. *)
Definition reachable (this : t) : Prop :=
  exists calls, this = fold_left perform calls constructor.

End MemStorage.

(* ================================================================== *)
(** ** server/routes.ts, the handlers around the store                *)
(* ================================================================== *)

(** The rate of a pair in a table of hardcoded rates: 1.0 for a currency
    against itself and for a pair the table does not hold.  The codes
    come out of [toUpperCase()], so that none of them names a property
    the table inherits. *)
Definition tableRate (table : list (String.string * list (String.string * Q)))
           (baseCurrency targetCurrency : String.string) : number :=
  if String.eqb baseCurrency targetCurrency then Fin 1.0
  else match lookup baseCurrency table with
       | Some row =>
           match lookup targetCurrency row with
           | Some r => if Qeq_bool r 0 then Fin 1.0 else Fin r
           | None => Fin 1.0
           end
       | None => Fin 1.0
       end.

(** The [exchangeRates] literal of [/api/rate]. *)
Definition exchangeRates : list (String.string * list (String.string * Q)) :=
  [ ("USD", [("EUR", 0.92); ("INR", 83.72); ("DKK", 6.87); ("AED", 3.67)]);
    ("EUR", [("USD", 1.09); ("INR", 91.00); ("DKK", 7.47); ("AED", 4.00)]);
    ("INR", [("USD", 0.012); ("EUR", 0.011); ("DKK", 0.082); ("AED", 0.044)]);
    ("DKK", [("USD", 0.146); ("EUR", 0.134); ("INR", 12.19); ("AED", 0.535)]);
    ("AED", [("USD", 0.272); ("EUR", 0.25); ("INR", 22.81); ("DKK", 1.87)]) ]%string.

Module RateResponse.
Record t : Type :=
  { rate : number;
    baseCurrency : String.string;
    targetCurrency : String.string }.
End RateResponse.

(** [/api/rate] with hardcoded rates, from the upper-cased codes on:
    the rate of the pair is stored under the clock's date and returned
    (the response also carries the clock's time as [lastUpdated]). *)
Definition rateHandler (baseCurrency targetCurrency : String.string) (now : Z)
           (storage : MemStorage.t) : RateResponse.t * MemStorage.t :=
  let rate := tableRate exchangeRates baseCurrency targetCurrency in
  let (_, storage1) :=
    MemStorage.saveExchangeRate
      {| InsertExchangeRate.baseCurrency := baseCurrency;
         InsertExchangeRate.targetCurrency := targetCurrency;
         InsertExchangeRate.rate := rate;
         InsertExchangeRate.date := now |} storage in
  ({| RateResponse.rate := rate;
      RateResponse.baseCurrency := baseCurrency;
      RateResponse.targetCurrency := targetCurrency |}, storage1).

Module HistoricalResponse.
Record t : Type :=
  { rates : list (Z * number);
    statistics : Statistics }.
End HistoricalResponse.

Section Calendar.

(** The calendar of the server, as in [MemStorage.getExchangeRates]. *)
Variable daysBefore : Z -> Z -> Z.

(** The loop of [/api/historical] with hardcoded rates:
    [for (let i = days - 1; i >= 0; i--)], [i] being the iterations
    still to run. *)
Fixpoint simulateHistory (baseCurrency targetCurrency : String.string)
         (baseRate : number) (today : Z) (i : nat)
         (rates : list (Z * number)) (g : rng) (storage : MemStorage.t)
  : list (Z * number) * rng * MemStorage.t :=
  match i with
  | O => (rates, g, storage)
  | S i' =>
      let date := daysBefore today (Z.of_nat i') in
      let (r, g1) := Math_random g in
      let variation := ((r - Fin 0.5) * Fin 0.02 * baseRate)%js in
      let rate := (baseRate + variation)%js in
      let (_, storage1) :=
        MemStorage.saveExchangeRate
          {| InsertExchangeRate.baseCurrency := baseCurrency;
             InsertExchangeRate.targetCurrency := targetCurrency;
             InsertExchangeRate.rate := rate;
             InsertExchangeRate.date := date |} storage in
      simulateHistory baseCurrency targetCurrency baseRate today i'
                      (rates ++ [(date, rate)]) g1 storage1
  end.

(** [/api/historical] with hardcoded rates, from the upper-cased codes
    and the parsed [days] parameter on. *)
Definition historicalHandler (baseCurrency targetCurrency : String.string)
           (parsedDays : option Z) (today : Z) (g : rng)
           (storage : MemStorage.t)
  : HistoricalResponse.t * rng * MemStorage.t :=
  let days := daysParameter parsedDays in
  let baseRate := tableRate baseRates baseCurrency targetCurrency in
  let '(rates, g1, storage1) :=
    simulateHistory baseCurrency targetCurrency baseRate today
                    (Z.to_nat days) [] g storage in
  let rateValues := map snd rates in
  ({| HistoricalResponse.rates := rates;
      HistoricalResponse.statistics := historicalStatistics rateValues |},
   g1, storage1).

(** [/api/historical] of the variant that asks the rate provider, on the
    branch that needs no request: enough rates are stored.  [None]
    stands for the other branch. *)
Definition historicalFromStorage (baseCurrency targetCurrency : String.string)
           (parsedDays : option Z) (now : Z) (storage : MemStorage.t)
  : option HistoricalResponse.t :=
  let days := daysParameter parsedDays in
  let storedRates :=
    MemStorage.getExchangeRates daysBefore now baseCurrency targetCurrency
                                days storage in
  if (Z.of_nat (length storedRates) <? days)%Z then None
  else
    let formattedRates :=
      map (fun rate => (ExchangeRate.date rate, ExchangeRate.rate rate))
          storedRates in
    let rateValues := map snd formattedRates in
    Some {| HistoricalResponse.rates := formattedRates;
            HistoricalResponse.statistics := historicalStatistics rateValues |}.

(** The trend analysis of that variant's [/api/forecast]: the direction
    is the sign of the percent change, the confidence is fixed, and the
    expected range is the range of the forecast. *)
Definition forecastAnalysisBySign (forecastRates : list number) : Analysis :=
  let percentChange := forecastPercentChange forecastRates in
  let direction :=
    if (percentChange >? Fin 0)%js then up
    else if (percentChange <? Fin 0)%js then down
    else stable in
  {| analysis_percentChange := toFixed_parsed 2 percentChange;
     analysis_direction := direction;
     confidence := Fin 75;
     expectedHigh := toFixed_parsed 4 (Math_max forecastRates);
     expectedLow := toFixed_parsed 4 (Math_min forecastRates) |}.

(** [/api/forecast] of that variant on the branch that needs no request:
    at least seven rates of the last 90 days are stored. *)
Definition forecastFromStorage (baseCurrency targetCurrency : String.string)
           (parsedDays : option Z) (now : Z) (storage : MemStorage.t)
  : option (Rand ForecastResponse) :=
  let days := daysParameter parsedDays in
  let historicalDays := 90%Z in
  let storedRates :=
    MemStorage.getExchangeRates daysBefore now baseCurrency targetCurrency
                                historicalDays storage in
  if (length storedRates <? 7)%nat then None
  else
    let historicalRates := map ExchangeRate.rate storedRates in
    Some (forecastRates <- generateForecast historicalRates days ;;
          ret {| forecast := datedForecast forecastRates;
                 analysis := forecastAnalysisBySign forecastRates |}).

End Calendar.

(** A server on UTC: a calendar day is 86 400 000 milliseconds. *)
Definition utcDaysBefore (t d : Z) : Z := (t - d * 86400000)%Z.

(** A [Date] further than 100 000 000 days from the epoch is invalid:
    its [getTime()] is NaN and [toISOString] throws on it.  The handlers
    are described for requests of up to [maxDays] days, a hundred
    years, which from a clock of this era stay within the dates and
    within [Array_maxLength]. *)
Definition maxDays : Z := 36500.

(* ================================================================== *)
(** ** The same code over IEEE binary64                               *)
(* ================================================================== *)

(** The functions of this module are the same translations with
    [number] read as the kernel's primitive binary64 floats, whose
    operations round to nearest-even as ECMAScript's do.  They serve to
    evaluate the code at concrete inputs where rounding matters. *)

Module Binary64.

Import PrimFloat.
Local Open Scope float_scope.
Local Set Warnings "-inexact-float".

Definition of_nat (n : nat) : float := of_uint63 (Uint63.of_Z (Z.of_nat n)).

Definition at_index (l : list float) (i : nat) : float := nth i l nan.

Definition Math_max (args : list float) : float :=
  if existsb is_nan args then nan
  else fold_left (fun highest v => if ltb highest v then v else highest)
                 args neg_infinity.

Definition Math_min (args : list float) : float :=
  if existsb is_nan args then nan
  else fold_left (fun lowest v => if ltb v lowest then v else lowest)
                 args infinity.

Definition Math_pow2 (b : float) : float := b * b.

Record RegressionFit : Type := { slope : float; intercept : float }.

Definition linearRegression (rates : list float) : RegressionFit :=
  let x := Array_from (length rates) of_nat in
  let n := of_nat (length rates) in
  let sumX := reduce (fun sum val _ => sum + val) x 0 in
  let sumY := reduce (fun sum val _ => sum + val) rates 0 in
  let sumXY := reduce (fun sum val i => sum + val * at_index rates i) x 0 in
  let sumXX := reduce (fun sum val _ => sum + val * val) x 0 in
  let slope := (n * sumXY - sumX * sumY) / (n * sumXX - sumX * sumX) in
  let intercept := (sumY - slope * sumX) / n in
  {| slope := slope; intercept := intercept |}.

Record Statistics : Type :=
  { average : float; min : float; max : float; volatility : float }.

Definition calculateStatistics (rates : list float) : Statistics :=
  let min := Math_min rates in
  let max := Math_max rates in
  let average :=
    reduce (fun sum rate _ => sum + rate) rates 0 / of_nat (length rates) in
  let volatility := ((max - min) / average) * 100 in
  {| average := average; min := min; max := max; volatility := volatility |}.

Definition calculateConfidence (rates : list float) : float :=
  let fit := linearRegression rates in
  let x := Array_from (length rates) of_nat in
  let predictions := map (fun x => slope fit * x + intercept fit) x in
  let yMean :=
    reduce (fun sum y _ => sum + y) rates 0 / of_nat (length rates) in
  let ssTotal :=
    reduce (fun sum y _ => sum + Math_pow2 (y - yMean)) rates 0 in
  let ssResidual :=
    reduce (fun sum y i => sum + Math_pow2 (y - at_index predictions i))
           rates 0 in
  let rSquared := 1 - (ssResidual / ssTotal) in
  Math_min [95; Math_max [50; rSquared * 100]].

Definition at_last (l : list float) : float :=
  match l with
  | [] => nan
  | _ => at_index l (length l - 1)
  end.

Record TrendSummary : Type :=
  { direction : Direction; percentChange : float }.

Definition analyzeTrend (rates : list float) : TrendSummary :=
  let slope := slope (linearRegression rates) in
  let firstRate := at_index rates 0 in
  let lastRate := at_last rates in
  let percentChange := ((lastRate - firstRate) / firstRate) * 100 in
  let direction :=
    if ltb 0.0001 slope then up
    else if ltb slope (-0.0001) then down
    else stable in
  {| direction := direction; percentChange := percentChange |}.

(** The mean of the observations and of their indices, and the sum of
    the residuals of a fit, evaluated in binary64. *)
Definition mean_y (rates : list float) : float :=
  reduce (fun sum y _ => sum + y) rates 0 / of_nat (length rates).

Definition mean_x (rates : list float) : float :=
  reduce (fun sum x _ => sum + x) (Array_from (length rates) of_nat) 0
  / of_nat (length rates).

Definition residual_sum (rates : list float) (fit : RegressionFit) : float :=
  reduce (fun sum y i => sum + (y - (slope fit * of_nat i + intercept fit)))
         rates 0.

End Binary64.

(* ================================================================== *)
(** ** The specification's vocabulary                                 *)
(* ================================================================== *)

(** [a] is the finite number [q]. *)
Definition has_value (a : number) (q : Q) : Prop :=
  match a with
  | Fin p => p == q
  | _ => False
  end.

(** A rate series of finite observations, as the code receives it. *)
Definition series (ys : list Q) : list number := map Fin ys.

(** The index [i] as a rational. *)
Definition qnat (i : nat) : Q := inject_Z (Z.of_nat i).

(** [bigsum n f] is the sum of [f i] over the indices [0 <= i < n]. *)
Fixpoint bigsum (n : nat) (f : nat -> Q) : Q :=
  match n with
  | O => 0
  | S m => bigsum m f + f m
  end.

(** The i-th observation. *)
Definition obs (ys : list Q) (i : nat) : Q := nth i ys 0.

Section ClosedForm.

Variable ys : list Q.

Let n : nat := length ys.

Definition Sx : Q := bigsum n qnat.
Definition Sy : Q := bigsum n (obs ys).
Definition Sxy : Q := bigsum n (fun i => qnat i * obs ys i).
Definition Sxx : Q := bigsum n (fun i => qnat i * qnat i).

(** Following the specification: slope = (n Sxy - Sx Sy) / (n Sxx - Sx^2),
    intercept = (Sy - slope Sx) / n. *)
Definition ols_denominator : Q := qnat n * Sxx - Sx * Sx.
Definition ols_slope : Q := (qnat n * Sxy - Sx * Sy) / ols_denominator.
Definition ols_intercept : Q := (Sy - ols_slope * Sx) / qnat n.

Definition mean_x : Q := Sx / qnat n.
Definition mean_y : Q := Sy / qnat n.

(** The value of the fitted line at index [i], and the residual of the
    i-th observation. *)
Definition fitted (i : nat) : Q := ols_slope * qnat i + ols_intercept.
Definition residual (i : nat) : Q := obs ys i - fitted i.

End ClosedForm.

(** The sum of squared residuals of the line [a * i + c]. *)
Definition squared_error (ys : list Q) (a c : Q) : Q :=
  bigsum (length ys)
         (fun i => (obs ys i - (a * qnat i + c)) * (obs ys i - (a * qnat i + c))).

(** The total sum of squares of the series around its mean. *)
Definition total_variation (ys : list Q) : Q :=
  bigsum (length ys)
         (fun i => (obs ys i - mean_y ys) * (obs ys i - mean_y ys)).

(** The series that lies on the line [a + b * i], of length [n]. *)
Definition line (a b : Q) (n : nat) : list Q :=
  map (fun i => a + b * qnat i) (seq 0 n).

(** The series in another unit: every observation times [k]. *)
Definition scaled (k : Q) (ys : list Q) : list Q := map (Qmult k) ys.

(** The identifiers [1, 2, .., n]. *)
Definition consecutive (n : nat) : list Z := map Z.of_nat (seq 1 n).

(** A map of the store is in order when it holds the keys 1..n in this
    order, each record under its own identifier, and the counter is the
    next identifier. *)
Definition in_order {V : Type} (id : V -> Z) (m : JsMap V) (next : Z) : Prop :=
  map fst m = consecutive (length m)
  /\ next = Z.of_nat (S (length m))
  /\ Forall (fun kv => id (snd kv) = fst kv) m.

(** What was handed to [saveExchangeRate], in call order. *)
Definition savedRates (calls : list MemStorage.call)
  : list InsertExchangeRate.t :=
  flat_map (fun c => match c with
                     | MemStorage.SaveExchangeRate r => [r]
                     | _ => []
                     end) calls.

(** A stored rate without its identifier. *)
Definition asInserted (r : ExchangeRate.t) : InsertExchangeRate.t :=
  {| InsertExchangeRate.baseCurrency := ExchangeRate.baseCurrency r;
     InsertExchangeRate.targetCurrency := ExchangeRate.targetCurrency r;
     InsertExchangeRate.rate := ExchangeRate.rate r;
     InsertExchangeRate.date := ExchangeRate.date r |}.

(** The calls that save the dated rates [new] for a pair. *)
Definition savesOf (baseCurrency targetCurrency : String.string)
           (new : list (Z * number)) : list MemStorage.call :=
  map (fun dr =>
         MemStorage.SaveExchangeRate
           {| InsertExchangeRate.baseCurrency := baseCurrency;
              InsertExchangeRate.targetCurrency := targetCurrency;
              InsertExchangeRate.rate := snd dr;
              InsertExchangeRate.date := fst dr |}) new.

(** The dates of the simulated history of [n] days: from [n - 1] days
    before [today] to [today]. *)
Definition historyDates (daysBefore : Z -> Z -> Z) (today : Z) (n : nat)
  : list Z :=
  map (fun j => daysBefore today (Z.of_nat j)) (rev (seq 0 n)).

(* ================================================================== *)
(** ** Sums                                                           *)
(* ================================================================== *)

Lemma qnat_S (i : nat) : qnat (S i) == qnat i + 1.
Proof.
  unfold qnat. rewrite Nat2Z.inj_succ, <- Z.add_1_r, inject_Z_plus.
  reflexivity.
Qed.


Lemma qnat_le (i j : nat) : (i <= j)%nat -> qnat i <= qnat j.
Proof.
  intros H. unfold qnat. rewrite <- Zle_Qle. lia.
Qed.

Lemma bigsum_ext (n : nat) (f g : nat -> Q) :
  (forall i, (i < n)%nat -> f i == g i) -> bigsum n f == bigsum n g.
Proof.
  induction n as [|n IH]; intros H; simpl.
  - reflexivity.
  - rewrite IH by (intros; apply H; lia). rewrite (H n) by lia. reflexivity.
Qed.



Lemma bigsum_const (n : nat) (c : Q) :
  bigsum n (fun _ => c) == qnat n * c.
Proof.
  induction n as [|n IH]; simpl.
  - unfold qnat; simpl; ring.
  - rewrite IH, qnat_S. ring.
Qed.

Lemma bigsum_nonneg (n : nat) (f : nat -> Q) :
  (forall i, (i < n)%nat -> 0 <= f i) -> 0 <= bigsum n f.
Proof.
  induction n as [|n IH]; intros H; simpl.
  - lra.
  - assert (0 <= bigsum n f) by (apply IH; intros; apply H; lia).
    assert (0 <= f n) by (apply H; lia). lra.
Qed.

(** Sum of the first indices and of their squares. *)
Lemma sum_indices (n : nat) : 2 * bigsum n qnat == qnat n * (qnat n - 1).
Proof.
  induction n as [|n IH]; simpl.
  - unfold qnat; simpl; ring.
  - rewrite qnat_S. ring_simplify. ring_simplify in IH. lra.
Qed.

Lemma sum_squares (n : nat) :
  6 * bigsum n (fun i => qnat i * qnat i)
  == (qnat n - 1) * qnat n * (2 * qnat n - 1).
Proof.
  induction n as [|n IH]; simpl.
  - unfold qnat; simpl; ring.
  - rewrite qnat_S. ring_simplify. ring_simplify in IH. lra.
Qed.

(** The denominator of the slope depends on the length alone, and is
    positive from two observations on. *)
Lemma ols_denominator_closed (ys : list Q) :
  12 * ols_denominator ys
  == qnat (length ys) * qnat (length ys)
     * (qnat (length ys) * qnat (length ys) - 1).
Proof.
  unfold ols_denominator, Sx, Sxx.
  pose proof (sum_indices (length ys)) as H1.
  pose proof (sum_squares (length ys)) as H2.
  set (n := qnat (length ys)) in *.
  set (a := bigsum (length ys) qnat) in *.
  set (b := bigsum (length ys) (fun i => qnat i * qnat i)) in *.
  assert (E : 12 * (n * b - a * a) == 2 * n * (6 * b) - 3 * ((2 * a) * (2 * a)))
    by ring.
  rewrite E, H1, H2. ring.
Qed.

Lemma qnat_ge_2 (n : nat) : (2 <= n)%nat -> 2 <= qnat n.
Proof.
  intros H. change 2 with (qnat 2). apply qnat_le. exact H.
Qed.

Lemma ols_denominator_pos (ys : list Q) :
  (2 <= length ys)%nat -> 0 < ols_denominator ys.
Proof.
  intros H. pose proof (ols_denominator_closed ys) as Hc.
  pose proof (qnat_ge_2 _ H) as Hn.
  set (n := qnat (length ys)) in *.
  assert (H4 : 4 <= n * n) by nra.
  set (m := n * n) in *.
  assert (0 < m * (m - 1)) by nra.
  lra.
Qed.

(* ================================================================== *)
(** ** The reductions of the code compute the sums                    *)
(* ================================================================== *)

Lemma reduce_from_sum (F : nat -> Q) (f : number -> number -> nat -> number)
      (l : list number) :
  forall (i : nat) (acc : Q),
    (forall k a, (k < length l)%nat ->
       f (Fin a) (nth k l NaN) (i + k)%nat = Fin (a + F (i + k)%nat)) ->
    exists q, reduce_from f l i (Fin acc) = Fin q
              /\ q == acc + (bigsum (i + length l) F - bigsum i F).
Proof.
  induction l as [|v t IH]; intros i acc H; simpl.
  - exists acc. split; [reflexivity|]. rewrite Nat.add_0_r. ring.
  - assert (H0 : f (Fin acc) v i = Fin (acc + F i)).
    { specialize (H 0%nat acc). simpl in H. rewrite Nat.add_0_r in H.
      apply H. lia. }
    rewrite H0.
    destruct (IH (S i) (acc + F i)) as [q [E1 E2]].
    + intros k a Hk. specialize (H (S k) a). simpl in H.
      rewrite Nat.add_succ_r in H. apply H. lia.
    + exists q. split; [exact E1|]. rewrite E2.
      replace (i + S (length t))%nat with (S i + length t)%nat by lia.
      simpl. ring.
Qed.

Lemma reduce_sum (F : nat -> Q) (f : number -> number -> nat -> number)
      (l : list number) :
  (forall k a, (k < length l)%nat ->
     f (Fin a) (nth k l NaN) k = Fin (a + F k)) ->
  exists q, reduce f l (Fin 0) = Fin q /\ q == bigsum (length l) F.
Proof.
  intros H. destruct (reduce_from_sum F f l 0%nat 0 H) as [q [E1 E2]].
  exists q. split; [exact E1|]. rewrite E2. simpl. ring.
Qed.

Lemma series_length (ys : list Q) : length (series ys) = length ys.
Proof. apply length_map. Qed.

Lemma series_nth (ys : list Q) (k : nat) :
  (k < length ys)%nat -> nth k (series ys) NaN = Fin (obs ys k).
Proof.
  intros H. unfold series, obs.
  rewrite (nth_indep _ NaN (Fin 0)) by (rewrite length_map; exact H).
  apply (map_nth Fin).
Qed.

Lemma indices_length (n : nat) : length (Array_from n of_nat) = n.
Proof. unfold Array_from. rewrite length_map. apply length_seq. Qed.

Lemma indices_nth (n k : nat) :
  (k < n)%nat -> nth k (Array_from n of_nat) NaN = Fin (qnat k).
Proof.
  intros H. unfold Array_from.
  rewrite (nth_indep _ NaN (of_nat 0))
    by (rewrite length_map, length_seq; exact H).
  rewrite (map_nth of_nat), seq_nth by exact H. reflexivity.
Qed.

Lemma sumX_value (n : nat) :
  exists q,
    reduce (fun sum val _ => sum + val)%js (Array_from n of_nat) (Fin 0) = Fin q
    /\ q == bigsum n qnat.
Proof.
  destruct (reduce_sum qnat (fun sum val _ => sum + val)%js
                        (Array_from n of_nat)) as [q [E1 E2]].
  - intros k a Hk. rewrite indices_length in Hk.
    rewrite indices_nth by exact Hk. reflexivity.
  - exists q. rewrite indices_length in E2. auto.
Qed.

Lemma sumXX_value (n : nat) :
  exists q,
    reduce (fun sum val _ => sum + val * val)%js (Array_from n of_nat) (Fin 0)
    = Fin q
    /\ q == bigsum n (fun i => qnat i * qnat i).
Proof.
  destruct (reduce_sum (fun i => qnat i * qnat i)
                        (fun sum val _ => sum + val * val)%js
                        (Array_from n of_nat)) as [q [E1 E2]].
  - intros k a Hk. rewrite indices_length in Hk.
    rewrite indices_nth by exact Hk. reflexivity.
  - exists q. rewrite indices_length in E2. auto.
Qed.

Lemma sumY_value (ys : list Q) :
  exists q,
    reduce (fun sum val _ => sum + val)%js (series ys) (Fin 0) = Fin q
    /\ q == Sy ys.
Proof.
  destruct (reduce_sum (obs ys) (fun sum val _ => sum + val)%js (series ys))
    as [q [E1 E2]].
  - intros k a Hk. rewrite series_length in Hk.
    rewrite series_nth by exact Hk. reflexivity.
  - exists q. rewrite series_length in E2. auto.
Qed.

Lemma sumXY_value (ys : list Q) :
  exists q,
    reduce (fun sum val i => sum + val * at_index (series ys) i)%js
           (Array_from (length ys) of_nat) (Fin 0) = Fin q
    /\ q == Sxy ys.
Proof.
  destruct (reduce_sum (fun i => qnat i * obs ys i)
              (fun sum val i => sum + val * at_index (series ys) i)%js
              (Array_from (length ys) of_nat)) as [q [E1 E2]].
  - intros k a Hk. rewrite indices_length in Hk.
    rewrite indices_nth by exact Hk. unfold at_index.
    rewrite series_nth by exact Hk. reflexivity.
  - exists q. rewrite indices_length in E2. auto.
Qed.

(** Division of finite numbers by a non-zero divisor is finite. *)
Lemma div_fin (p q : Q) : ~ q == 0 -> (Fin p / Fin q)%js = Fin (p / q).
Proof.
  intros H. simpl. destruct (q ?= 0) eqn:E; try reflexivity.
  apply Qeq_alt in E. contradiction.
Qed.

Lemma div_zero_zero (p q : Q) : p == 0 -> q == 0 -> (Fin p / Fin q)%js = NaN.
Proof.
  intros Hp Hq. simpl.
  apply Qeq_alt in Hp. apply Qeq_alt in Hq. rewrite Hq, Hp. reflexivity.
Qed.

(** From two observations on, the fit is finite and is the least-squares
    line of the specification. *)
Lemma linearRegression_fit (ys : list Q) :
  (2 <= length ys)%nat ->
  exists s b,
    linearRegression (series ys) = {| slope := Fin s; intercept := Fin b |}
    /\ s == ols_slope ys /\ b == ols_intercept ys.
Proof.
  intros Hn. unfold linearRegression. rewrite series_length.
  destruct (sumX_value (length ys)) as [sx [-> Ex]].
  destruct (sumY_value ys) as [sy [-> Ey]].
  destruct (sumXY_value ys) as [sxy [-> Exy]].
  destruct (sumXX_value (length ys)) as [sxx [-> Exx]].
  pose proof (ols_denominator_pos ys Hn) as Hd.
  pose proof (qnat_ge_2 _ Hn) as Hq.
  assert (Ed : qnat (length ys) * sxx - sx * sx == ols_denominator ys).
  { unfold ols_denominator, Sx, Sxx. rewrite Ex, Exx. reflexivity. }
  unfold of_nat. fold (qnat (length ys)).
  cbn [add sub mul].
  rewrite div_fin by (rewrite Ed; lra).
  cbn [add sub mul].
  rewrite div_fin by lra.
  eexists; eexists. split; [reflexivity|].
  assert (Es : (qnat (length ys) * sxy - sx * sy)
               / (qnat (length ys) * sxx - sx * sx) == ols_slope ys).
  { unfold ols_slope. rewrite Ed, Exy, Ex, Ey. reflexivity. }
  split; [exact Es|].
  unfold ols_intercept. rewrite Es, Ey, Ex. reflexivity.
Qed.

(* ================================================================== *)
(** ** Regression fitter                                              *)
(* ================================================================== *)

(** C1, in exact arithmetic.  For every rate series of length n >= 2
    the regression fitter returns the finite numbers
    slope = (n Sxy - Sx Sy) / (n Sxx - Sx^2) and
    intercept = (Sy - slope Sx) / n, the sums running over the indices
    0..n-1 against the series values; the denominator of the slope is
    not zero.  (In binary64 the sums round and overflow, see
    [Rounding.closed_form_overflow].) *)
Theorem linearRegression_closed_form (ys : list Q) :
  (2 <= length ys)%nat ->
  let n := qnat (length ys) in
  exists s b,
    has_value (slope (linearRegression (series ys))) s
    /\ has_value (intercept (linearRegression (series ys))) b
    /\ s == (n * Sxy ys - Sx ys * Sy ys) / (n * Sxx ys - Sx ys * Sx ys)
    /\ b == (Sy ys - s * Sx ys) / n
    /\ ~ n * Sxx ys - Sx ys * Sx ys == 0.
Proof.
  intros Hn n.
  destruct (linearRegression_fit ys Hn) as [s [b [E [Es Eb]]]].
  exists s, b. rewrite E. simpl.
  split; [reflexivity|]. split; [reflexivity|].
  split; [exact Es|]. split.
  - rewrite Eb. unfold ols_intercept. rewrite Es. reflexivity.
  - pose proof (ols_denominator_pos ys Hn) as Hd.
    unfold ols_denominator in Hd. fold n in Hd. lra.
Qed.

Lemma linearRegression_closed_form_witness :
  let ys := [1; 2; 3; 4; 5] in
  let n := qnat (length ys) in
  exists s b,
    has_value (slope (linearRegression (series ys))) s
    /\ has_value (intercept (linearRegression (series ys))) b
    /\ s == (n * Sxy ys - Sx ys * Sy ys) / (n * Sxx ys - Sx ys * Sx ys)
    /\ b == (Sy ys - s * Sx ys) / n
    /\ ~ n * Sxx ys - Sx ys * Sx ys == 0.
Proof.
  apply (linearRegression_closed_form [1; 2; 3; 4; 5]). simpl. lia.
Defined.

(** The two normal equations of the least-squares problem. *)
Lemma residual_sum (ys : list Q) (s b : Q) :
  bigsum (length ys) (fun i => obs ys i - (s * qnat i + b))
  == Sy ys - s * Sx ys - qnat (length ys) * b.
Proof.
  unfold Sy, Sx. induction (length ys) as [|n IH]; simpl.
  - unfold qnat; simpl; ring.
  - rewrite IH, qnat_S. ring.
Qed.

Lemma residual_moment (ys : list Q) (s b : Q) :
  bigsum (length ys) (fun i => qnat i * (obs ys i - (s * qnat i + b)))
  == Sxy ys - s * Sxx ys - b * Sx ys.
Proof.
  unfold Sxy, Sxx, Sx. induction (length ys) as [|n IH]; simpl.
  - ring.
  - rewrite IH. ring.
Qed.

Lemma normal_equations (ys : list Q) :
  (2 <= length ys)%nat ->
  bigsum (length ys) (residual ys) == 0
  /\ bigsum (length ys) (fun i => qnat i * residual ys i) == 0.
Proof.
  intros Hn.
  pose proof (ols_denominator_pos ys Hn) as Hd.
  pose proof (qnat_ge_2 _ Hn) as Hq.
  unfold residual, fitted. rewrite residual_sum, residual_moment.
  unfold ols_intercept, ols_slope.
  unfold ols_denominator in *.
  set (n := qnat (length ys)) in *.
  split; field; split; lra.
Qed.

(** C9, in exact arithmetic.  For every series of length n >= 2 the
    returned intercept is mean(y) - slope * mean(x): the fitted line
    passes through the centroid (mean index, mean value) and the
    residuals of the fit sum to zero.  (Binary64 rounding breaks the
    equalities, see [Rounding.intercept_off_centroid].) *)
Theorem linearRegression_centroid (ys : list Q) :
  (2 <= length ys)%nat ->
  exists s b,
    linearRegression (series ys) = {| slope := Fin s; intercept := Fin b |}
    /\ b == mean_y ys - s * mean_x ys
    /\ s * mean_x ys + b == mean_y ys
    /\ bigsum (length ys) (fun i => obs ys i - (s * qnat i + b)) == 0.
Proof.
  intros Hn.
  destruct (linearRegression_fit ys Hn) as [s [b [E [Es Eb]]]].
  pose proof (qnat_ge_2 _ Hn) as Hq.
  assert (Hb : b == mean_y ys - s * mean_x ys).
  { rewrite Eb. unfold ols_intercept, mean_y, mean_x. rewrite <- Es.
    field. lra. }
  exists s, b. split; [exact E|]. split; [exact Hb|]. split.
  - rewrite Hb. ring.
  - rewrite residual_sum, Hb. unfold mean_y, mean_x. field. lra.
Qed.

Lemma linearRegression_centroid_witness :
  let ys := [2; 0; 2; 1.9] in
  exists s b,
    linearRegression (series ys) = {| slope := Fin s; intercept := Fin b |}
    /\ b == mean_y ys - s * mean_x ys
    /\ s * mean_x ys + b == mean_y ys
    /\ bigsum (length ys) (fun i => obs ys i - (s * qnat i + b)) == 0.
Proof.
  apply (linearRegression_centroid [2; 0; 2; 1.9]). simpl. lia.
Defined.

Lemma squared_error_split (ys : list Q) (s b a c : Q) :
  squared_error ys a c
  == squared_error ys s b
     + 2 * (s - a)
       * bigsum (length ys) (fun i => qnat i * (obs ys i - (s * qnat i + b)))
     + 2 * (b - c) * bigsum (length ys) (fun i => obs ys i - (s * qnat i + b))
     + bigsum (length ys)
              (fun i => ((s - a) * qnat i + (b - c)) * ((s - a) * qnat i + (b - c))).
Proof.
  unfold squared_error. induction (length ys) as [|n IH]; simpl.
  - ring.
  - rewrite IH. ring.
Qed.

(** The returned line is the least-squares line: no other line has a
    smaller sum of squared residuals. *)
Lemma linearRegression_least_squares (ys : list Q) (a c : Q) :
  (2 <= length ys)%nat ->
  squared_error ys (ols_slope ys) (ols_intercept ys) <= squared_error ys a c.
Proof.
  intros Hn. destruct (normal_equations ys Hn) as [N1 N2].
  unfold residual, fitted in N1, N2.
  rewrite (squared_error_split ys (ols_slope ys) (ols_intercept ys) a c).
  rewrite N1, N2.
  set (d := bigsum _ (fun i => _ * _)).
  assert (0 <= d).
  { apply bigsum_nonneg. intros i _.
    set (t := (ols_slope ys - a) * qnat i + (ols_intercept ys - c)). nra. }
  lra.
Qed.

(* ================================================================== *)
(** ** Forecast generator                                             *)
(* ================================================================== *)

Lemma Array_from_rand_at_S (A : Type) (n i : nat) (f : nat -> Rand A) (g : rng) :
  Array_from_rand_at (S n) i f g
  = let (v, g1) := f i g in
    let (t, g2) := Array_from_rand_at n (S i) f g1 in (v :: t, g2).
Proof.
  simpl. unfold bind. destruct (f i g) as [v g1].
  destruct (Array_from_rand_at n (S i) f g1). reflexivity.
Qed.

(** A callback that draws once per element consumes the stream in index
    order: the k-th element is built from the k-th value. *)
Lemma Array_from_rand_at_draws (h : nat -> Q -> number)
      (f : nat -> Rand number) :
  (forall j g, f j g = (h j (g 0%nat), fun k => g (S k))) ->
  forall n i g,
    length (fst (Array_from_rand_at n i f g)) = n
    /\ (forall k, (k < n)%nat ->
          nth k (fst (Array_from_rand_at n i f g)) NaN = h (i + k)%nat (g k))
    /\ (forall k, snd (Array_from_rand_at n i f g) k = g (n + k)%nat).
Proof.
  intros Hf. induction n as [|n IH]; intros i g.
  - simpl. split; [reflexivity|]. split; [intros k Hk; lia | reflexivity].
  - rewrite Array_from_rand_at_S, Hf.
    specialize (IH (S i) (fun k => g (S k))).
    destruct (Array_from_rand_at n (S i) f (fun k => g (S k))) as [t g'].
    simpl in *. destruct IH as [IH1 [IH2 IH3]].
    split; [now rewrite IH1|]. split.
    + intros [|k] Hk.
      * now rewrite Nat.add_0_r.
      * rewrite IH2 by lia. now rewrite Nat.add_succ_r.
    + intros k. apply IH3.
Qed.

Lemma combine_seq_offsets (l : list number) :
  forall start,
    map (fun ir : nat * number => (fst ir + 1)%nat)
        (combine (seq start (length l)) l)
    = seq (S start) (length l).
Proof.
  induction l as [|v t IH]; intros start; simpl.
  - reflexivity.
  - rewrite IH. now rewrite Nat.add_1_r.
Qed.

Lemma combine_seq_values (l : list number) :
  forall start,
    map (fun ir : nat * number => snd ir) (combine (seq start (length l)) l) = l.
Proof.
  induction l as [|v t IH]; intros start; simpl.
  - reflexivity.
  - now rewrite IH.
Qed.

Lemma datedForecast_offsets (l : list number) :
  map dayOffset (datedForecast l) = seq 1 (length l).
Proof.
  unfold datedForecast. rewrite map_map. simpl.
  apply combine_seq_offsets.
Qed.

Lemma datedForecast_rates (l : list number) :
  map rate (datedForecast l) = l.
Proof.
  unfold datedForecast. rewrite map_map. simpl.
  apply combine_seq_values.
Qed.

(** What a run of [generateForecast] is, whatever the series: the i-th
    point is built from the fit and the i-th value of the generator, and
    the generator is left after the last value used. *)
Lemma generateForecast_run (rates : list number) (days : Z) (g : rng) :
  let fit := linearRegression rates in
  let n := Z.to_nat days in
  length (fst (generateForecast rates days g)) = n
  /\ (forall i, (i < n)%nat ->
        nth i (fst (generateForecast rates days g)) NaN
        = (slope fit * (of_nat (length rates) - Fin 1 + of_nat i + Fin 1)
           + intercept fit + (Fin (g i) - Fin 0.5) * Fin 0.002)%js)
  /\ (forall k, snd (generateForecast rates days g) k = g (n + k)%nat).
Proof.
  intros fit n.
  apply (Array_from_rand_at_draws
           (fun i r =>
              (slope fit * (of_nat (length rates) - Fin 1 + of_nat i + Fin 1)
               + intercept fit + (Fin r - Fin 0.5) * Fin 0.002)%js)
           _ ltac:(intros; reflexivity) n 0%nat g).
Qed.

(** The points of a forecast depend on the generator through its values
    alone. *)
Lemma generateForecast_ext (rates : list number) (days : Z) (g g' : rng) :
  (forall k, g k = g' k) ->
  fst (generateForecast rates days g) = fst (generateForecast rates days g').
Proof.
  intros E.
  destruct (generateForecast_run rates days g) as [L [N _]].
  destruct (generateForecast_run rates days g') as [L' [N' _]].
  apply (nth_ext _ _ NaN NaN); [now rewrite L, L'|].
  intros i Hi. rewrite L in Hi. now rewrite (N i Hi), (N' i Hi), E.
Qed.

(** A call returns what [generateForecast] builds exactly when the
    horizon is a length an array can have. *)
Lemma generateForecast_call_returns (rates : list number) (days : Z) (g : rng) :
  (days <= Array_maxLength)%Z ->
  generateForecast_call rates days g = Returns (generateForecast rates days g).
Proof.
  intros H. unfold generateForecast_call.
  now destruct (Z.ltb_spec Array_maxLength days); [lia|].
Qed.

Lemma generateForecast_call_throws (rates : list number) (days : Z) (g : rng) :
  (Array_maxLength < days)%Z ->
  generateForecast_call rates days g = Throws_RangeError.
Proof.
  intros H. unfold generateForecast_call.
  now destruct (Z.ltb_spec Array_maxLength days); [|lia].
Qed.

(** A horizon of 2^32 days is a horizon of at least one day, and the
    call throws instead of returning that many points. *)
Lemma horizon_beyond_array_length :
  (1 <= 4294967296)%Z
  /\ generateForecast_call (series [1; 2]) 4294967296 (fun _ => 0.5)
     = Throws_RangeError.
Proof. split; [discriminate | reflexivity]. Qed.

(** C2, in exact arithmetic and for a horizon an array can hold.  For
    every series of length n >= 2 and every horizon from one day to
    [Array_maxLength] days, the call returns: the forecast has exactly
    [days] points, dated at day offsets 1, 2, .., [days] in this order,
    and the i-th point is slope * ((n - 1) + i + 1) + intercept plus the
    noise of the i-th draw, which lies in [-0.001, 0.001]; slope and
    intercept are the fit of the whole series. *)
Theorem generateForecast_spec (ys : list Q) (days : Z) (g : rng) :
  (2 <= length ys)%nat -> (1 <= days <= Array_maxLength)%Z -> rng_ok g ->
  let points := fst (generateForecast (series ys) days g) in
  generateForecast_call (series ys) days g
  = Returns (generateForecast (series ys) days g)
  /\ length points = Z.to_nat days
  /\ map dayOffset (datedForecast points) = seq 1 (Z.to_nat days)
  /\ forall i, (i < Z.to_nat days)%nat ->
       exists noise,
         has_value (nth i points NaN)
                   (ols_slope ys * ((qnat (length ys) - 1) + qnat i + 1)
                    + ols_intercept ys + noise)
         /\ noise == (g i - 0.5) * 0.002
         /\ -0.001 <= noise /\ noise <= 0.001.
Proof.
  intros Hn [Hd Hmax] Hg points.
  split; [now apply generateForecast_call_returns|].
  destruct (linearRegression_fit ys Hn) as [s [b [E [Es Eb]]]].
  set (h := fun (i : nat) (r : Q) =>
              (Fin s * (of_nat (length ys) - Fin 1 + of_nat i + Fin 1) + Fin b
               + (Fin r - Fin 0.5) * Fin 0.002)%js).
  set (f := fun i : nat =>
              r <- Math_random ;;
              ret (Fin s * (of_nat (length ys) - Fin 1 + of_nat i + Fin 1)
                   + Fin b + (r - Fin 0.5) * Fin 0.002)%js).
  assert (EP : points = fst (Array_from_rand_at (Z.to_nat days) 0 f g)).
  { unfold points, generateForecast. rewrite E, series_length. reflexivity. }
  destruct (Array_from_rand_at_draws h f ltac:(intros; reflexivity)
                                      (Z.to_nat days) 0%nat g) as [L [N _]].
  rewrite <- EP in L, N. clearbody points.
  split; [exact L|]. split.
  - rewrite datedForecast_offsets, L. reflexivity.
  - intros i Hi. exists ((g i - 0.5) * 0.002).
    rewrite (N i Hi). unfold h. simpl.
    split; [|split; [reflexivity|]].
    + fold (qnat (length ys)). fold (qnat i). rewrite Es, Eb. reflexivity.
    + destruct (Hg i) as [G0 G1]. split; lra.
Qed.

Lemma generateForecast_spec_witness :
  let ys := [0.90; 0.91; 0.92; 0.93; 0.94] in
  let g : rng := fun _ => 0.5 in
  let points := fst (generateForecast (series ys) 3 g) in
  generateForecast_call (series ys) 3 g
  = Returns (generateForecast (series ys) 3 g)
  /\ length points = Z.to_nat 3
  /\ map dayOffset (datedForecast points) = seq 1 (Z.to_nat 3)
  /\ forall i, (i < Z.to_nat 3)%nat ->
       exists noise,
         has_value (nth i points NaN)
                   (ols_slope ys * ((qnat (length ys) - 1) + qnat i + 1)
                    + ols_intercept ys + noise)
         /\ noise == (g i - 0.5) * 0.002
         /\ -0.001 <= noise /\ noise <= 0.001.
Proof.
  apply (generateForecast_spec [0.90; 0.91; 0.92; 0.93; 0.94] 3 (fun _ => 0.5)).
  - simpl. lia.
  - split; discriminate.
  - intros k. split; [discriminate | reflexivity].
Defined.

(* ================================================================== *)
(** ** Series that are too short                                      *)
(* ================================================================== *)

(** On a single observation the fitter divides zero by zero and hands
    [NaN] back, and the forecast built on it is [NaN] at every point. *)
Lemma short_series_yields_NaN :
  linearRegression (series [1]) = {| slope := NaN; intercept := NaN |}
  /\ fst (generateForecast (series [1]) 3 (fun _ => 0.5)) = [NaN; NaN; NaN].
Proof. split; reflexivity. Qed.

Lemma linearRegression_short (ys : list Q) :
  (length ys < 2)%nat ->
  linearRegression (series ys) = {| slope := NaN; intercept := NaN |}.
Proof.
  intros H. destruct ys as [|y [|z t]]; [reflexivity | | simpl in H; lia].
  unfold linearRegression, reduce. cbn -[div Qplus Qmult Qminus inject_Z].
  rewrite div_zero_zero; [reflexivity | | reflexivity].
  change (inject_Z 0) with 0. change (inject_Z 1) with 1. ring.
Qed.

Lemma all_NaN (l : list number) (n : nat) :
  length l = n -> (forall k, (k < n)%nat -> nth k l NaN = NaN) ->
  l = repeat NaN n.
Proof.
  intros L N. apply (nth_ext l (repeat NaN n) NaN NaN).
  - now rewrite repeat_length.
  - intros k Hk. rewrite L in Hk. rewrite N by exact Hk.
    now rewrite nth_repeat.
Qed.

(** C3, as the code has it.  For every series of length < 2 the fitter
    raises no error: it returns slope = NaN and intercept = NaN.  The
    forecast raises no error for the series either: for every horizon up
    to [Array_maxLength] the call returns that many points, each NaN,
    and for a longer horizon it throws the RangeError that [Array.from]
    throws for every series. *)
Theorem short_series_behaviour (ys : list Q) :
  (length ys < 2)%nat ->
  linearRegression (series ys) = {| slope := NaN; intercept := NaN |}
  /\ forall (days : Z) (g : rng),
       ((days <= Array_maxLength)%Z ->
        exists g',
          generateForecast_call (series ys) days g
          = Returns (repeat NaN (Z.to_nat days), g'))
       /\ ((Array_maxLength < days)%Z ->
           generateForecast_call (series ys) days g = Throws_RangeError).
Proof.
  intros H. split; [now apply linearRegression_short|].
  intros days g. split; [|apply generateForecast_call_throws].
  intros Hd. rewrite generateForecast_call_returns by exact Hd.
  exists (snd (generateForecast (series ys) days g)).
  rewrite (surjective_pairing (generateForecast (series ys) days g)) at 1.
  f_equal. f_equal.
  destruct (generateForecast_run (series ys) days g) as [L [N _]].
  apply all_NaN; [exact L|].
  intros k Hk. rewrite (N k Hk), (linearRegression_short ys H).
  reflexivity.
Qed.

Lemma short_series_behaviour_witness :
  linearRegression (series [1]) = {| slope := NaN; intercept := NaN |}
  /\ forall (days : Z) (g : rng),
       ((days <= Array_maxLength)%Z ->
        exists g',
          generateForecast_call (series [1]) days g
          = Returns (repeat NaN (Z.to_nat days), g'))
       /\ ((Array_maxLength < days)%Z ->
           generateForecast_call (series [1]) days g = Throws_RangeError).
Proof.
  apply (short_series_behaviour [1]). simpl. lia.
Defined.

(** The summary of the empty series carries [NaN] and infinite
    extremes. *)
Lemma empty_summary_degenerate :
  isNaN (average (calculateStatistics [])) = true
  /\ isFinite (min (calculateStatistics [])) = false
  /\ isFinite (max (calculateStatistics [])) = false.
Proof. repeat split. Qed.

(** C7, as the code has it.  For the empty series the summarizer raises
    no error: the client function and the server block both return
    average = NaN, min = +Infinity, max = -Infinity and
    volatility = NaN. *)
Theorem calculateStatistics_empty :
  calculateStatistics (series [])
  = {| average := NaN; min := PosInf; max := NegInf; volatility := NaN |}
  /\ historicalStatistics (series [])
     = {| average := NaN; min := PosInf; max := NegInf; volatility := NaN |}.
Proof. split; reflexivity. Qed.

(* ================================================================== *)
(** ** Statistics summarizer                                          *)
(* ================================================================== *)

Lemma series_no_NaN (ys : list Q) : existsb isNaN (series ys) = false.
Proof. induction ys as [|y t IH]; simpl; auto. Qed.

Lemma lt_fin_true (p q : Q) : (Fin p <? Fin q)%js = true -> p < q.
Proof.
  simpl. destruct (p ?= q) eqn:E; try discriminate.
  intros _. now apply Qlt_alt.
Qed.

Lemma lt_fin_false (p q : Q) : (Fin p <? Fin q)%js = false -> q <= p.
Proof.
  simpl. destruct (p ?= q) eqn:E; try discriminate; intros _.
  - apply Qeq_alt in E. lra.
  - apply Qgt_alt in E. lra.
Qed.

(** One step of the scan behind [Math.min] and [Math.max]: the running
    extreme [m] obtained from the tail is the extreme of the whole. *)
Ltac extreme_step IH bound :=
  let m := fresh "m" in
  let E1 := fresh "E" in
  let E2 := fresh "E" in
  let E3 := fresh "E" in
  let E4 := fresh "E" in
  destruct (IH bound) as [m [E1 [E2 [E3 E4]]]]; exists m;
  split; [exact E1|]; split; [|split];
  [ destruct E2 as [-> | E2]; auto
  | lra
  | let z := fresh "z" in
    let Hz := fresh "Hz" in
    intros z [<- | Hz]; [lra | now apply E4] ].

Lemma fold_min_series (ys : list Q) :
  forall acc,
  exists m,
    fold_left (fun lowest v => if (v <? lowest)%js then v else lowest)
              (series ys) (Fin acc) = Fin m
    /\ (m = acc \/ In m ys) /\ m <= acc /\ (forall y, In y ys -> m <= y).
Proof.
  induction ys as [|y t IH]; intros acc.
  - exists acc. simpl. repeat split; auto; try lra. intros y [].
  - cbn [series map fold_left In].
    destruct (Fin y <? Fin acc)%js eqn:E.
    + apply lt_fin_true in E. extreme_step IH y.
    + apply lt_fin_false in E. extreme_step IH acc.
Qed.

Lemma fold_max_series (ys : list Q) :
  forall acc,
  exists m,
    fold_left (fun highest v => if (v >? highest)%js then v else highest)
              (series ys) (Fin acc) = Fin m
    /\ (m = acc \/ In m ys) /\ acc <= m /\ (forall y, In y ys -> y <= m).
Proof.
  induction ys as [|y t IH]; intros acc.
  - exists acc. simpl. repeat split; auto; try lra. intros y [].
  - cbn [series map fold_left In]. unfold gt at 2.
    destruct (Fin acc <? Fin y)%js eqn:E.
    + apply lt_fin_true in E. extreme_step IH y.
    + apply lt_fin_false in E. extreme_step IH acc.
Qed.

(** [Math.min] and [Math.max] of a non-empty finite series are its
    smallest and its largest observation. *)
Lemma Math_min_series (ys : list Q) :
  ys <> [] ->
  exists m, Math_min (series ys) = Fin m
            /\ In m ys /\ (forall y, In y ys -> m <= y).
Proof.
  intros H. destruct ys as [|y t]; [contradiction|].
  unfold Math_min. rewrite series_no_NaN. cbn [series map fold_left lt].
  destruct (fold_min_series t y) as [m [E1 [E2 [E3 E4]]]]. exists m.
  split; [exact E1|]. split.
  - destruct E2 as [-> | E2]; [now left | now right].
  - intros z [<- | Hz]; [exact E3 | now apply E4].
Qed.

Lemma Math_max_series (ys : list Q) :
  ys <> [] ->
  exists m, Math_max (series ys) = Fin m
            /\ In m ys /\ (forall y, In y ys -> y <= m).
Proof.
  intros H. destruct ys as [|y t]; [contradiction|].
  unfold Math_max. rewrite series_no_NaN. cbn [series map fold_left gt lt].
  destruct (fold_max_series t y) as [m [E1 [E2 [E3 E4]]]]. exists m.
  split; [exact E1|]. split.
  - destruct E2 as [-> | E2]; [now left | now right].
  - intros z [<- | Hz]; [exact E3 | now apply E4].
Qed.

Lemma qnat_pos (ys : list Q) : ys <> [] -> 1 <= qnat (length ys).
Proof.
  intros H. change 1 with (qnat 1). apply qnat_le.
  destruct ys; [contradiction | simpl; lia].
Qed.

(** The mean of a non-empty finite series is finite. *)
Lemma mean_value (ys : list Q) :
  ys <> [] ->
  exists av,
    (reduce (fun sum rate _ => sum + rate) (series ys) (Fin 0)
     / of_nat (length (series ys)))%js = Fin av
    /\ av == mean_y ys.
Proof.
  intros H. destruct (sumY_value ys) as [sy [-> Ey]].
  rewrite series_length. unfold of_nat. fold (qnat (length ys)).
  pose proof (qnat_pos ys H) as Hq.
  rewrite div_fin by lra. eexists. split; [reflexivity|].
  unfold mean_y. rewrite Ey. reflexivity.
Qed.

Lemma calculateStatistics_fin (ys : list Q) :
  ys <> [] ->
  exists mn mx av,
    In mn ys /\ (forall y, In y ys -> mn <= y)
    /\ In mx ys /\ (forall y, In y ys -> y <= mx)
    /\ av == mean_y ys
    /\ calculateStatistics (series ys)
       = {| average := Fin av; min := Fin mn; max := Fin mx;
            volatility := ((Fin mx - Fin mn) / Fin av * Fin 100)%js |}
    /\ historicalStatistics (series ys)
       = {| average := Fin av; min := Fin mn; max := Fin mx;
            volatility :=
              toFixed_parsed 2 ((Fin mx - Fin mn) / Fin av * Fin 100)%js |}.
Proof.
  intros H.
  destruct (Math_min_series ys H) as [mn [Emn [Imn Lmn]]].
  destruct (Math_max_series ys H) as [mx [Emx [Imx Lmx]]].
  destruct (mean_value ys H) as [av [Eav Hav]].
  exists mn, mx, av. repeat (split; [assumption|]).
  unfold calculateStatistics, historicalStatistics.
  rewrite Emn, Emx, Eav. split; reflexivity.
Qed.

Lemma bigsum_lower (n : nat) (f : nat -> Q) (m : Q) :
  (forall i, (i < n)%nat -> m <= f i) -> qnat n * m <= bigsum n f.
Proof.
  induction n as [|n IH]; intros H; simpl.
  - change (qnat 0) with 0. lra.
  - rewrite qnat_S.
    assert (qnat n * m <= bigsum n f) by (apply IH; intros; apply H; lia).
    assert (m <= f n) by (apply H; lia). lra.
Qed.

Lemma bigsum_upper (n : nat) (f : nat -> Q) (m : Q) :
  (forall i, (i < n)%nat -> f i <= m) -> bigsum n f <= qnat n * m.
Proof.
  induction n as [|n IH]; intros H; simpl.
  - change (qnat 0) with 0. lra.
  - rewrite qnat_S.
    assert (bigsum n f <= qnat n * m) by (apply IH; intros; apply H; lia).
    assert (f n <= m) by (apply H; lia). lra.
Qed.

Lemma obs_In (ys : list Q) (i : nat) : (i < length ys)%nat -> In (obs ys i) ys.
Proof. intros H. unfold obs. now apply nth_In. Qed.

(** The mean lies between every lower and every upper bound of the
    observations. *)
Lemma mean_between (ys : list Q) (lo hi : Q) :
  ys <> [] ->
  (forall y, In y ys -> lo <= y) -> (forall y, In y ys -> y <= hi) ->
  lo <= mean_y ys /\ mean_y ys <= hi.
Proof.
  intros H Hlo Hhi. pose proof (qnat_pos ys H) as Hq.
  assert (L : qnat (length ys) * lo <= Sy ys).
  { apply bigsum_lower. intros i Hi. apply Hlo. now apply obs_In. }
  assert (U : Sy ys <= qnat (length ys) * hi).
  { apply bigsum_upper. intros i Hi. apply Hhi. now apply obs_In. }
  unfold mean_y. split.
  - apply Qle_shift_div_l; [lra | rewrite Qmult_comm; exact L].
  - apply Qle_shift_div_r; [lra | rewrite Qmult_comm; exact U].
Qed.

(** Rounding to the nearest integer, ties away from zero, moves a value
    by at most one half. *)
Lemma round_half_away_near (x : Q) :
  Qabs (inject_Z (round_half_away x) - x) <= 1 # 2.
Proof.
  unfold round_half_away. apply Qabs_Qle_condition.
  destruct (x ?= 0)%Q.
  - pose proof (Qfloor_le (x + (1 # 2))) as L.
    pose proof (Qlt_floor (x + (1 # 2))) as U.
    rewrite inject_Z_plus in U. change (inject_Z 1) with 1 in U. split; lra.
  - pose proof (Qfloor_le (- x + (1 # 2))) as L.
    pose proof (Qlt_floor (- x + (1 # 2))) as U.
    rewrite inject_Z_plus in U. change (inject_Z 1) with 1 in U.
    rewrite inject_Z_opp. split; lra.
  - pose proof (Qfloor_le (x + (1 # 2))) as L.
    pose proof (Qlt_floor (x + (1 # 2))) as U.
    rewrite inject_Z_plus in U. change (inject_Z 1) with 1 in U. split; lra.
Qed.

(** [parseFloat(v.toFixed(2))] is a whole number of hundredths at most
    half a hundredth away from [v]. *)
Lemma toFixed_parsed_hundredths (q : Q) :
  Qabs q < inject_Z (10 ^ 21) ->
  exists cents : Z,
    toFixed_parsed 2 (Fin q) = Fin (inject_Z cents / 100)
    /\ Qabs (inject_Z cents / 100 - q) <= 1 # 200.
Proof.
  intros H. unfold toFixed_parsed.
  destruct (Qle_bool (inject_Z (10 ^ 21)) (Qabs q)) eqn:E.
  - apply Qle_bool_iff in E. lra.
  - change (inject_Z (10 ^ Z.of_nat 2)) with 100.
    exists (round_half_away (q * 100)). split; [reflexivity|].
    pose proof (round_half_away_near (q * 100)) as N.
    apply Qabs_Qle_condition in N. apply Qabs_Qle_condition.
    set (z := inject_Z (round_half_away (q * 100))) in *.
    unfold Qdiv. change (/ 100) with (1 # 100).
    split; lra.
Qed.

(** C6, in exact arithmetic.  For every non-empty series the summary
    has average = the arithmetic mean, min and max = the smallest and
    the largest observation, and volatility = (max - min) / average *
    100; the server hands the volatility out rounded to two decimals;
    and the volatility of [100, 100, 100] is 0.  (In binary64 the
    average is the rounded sum divided by n, which need not be the mean,
    see [Rounding.average_off_mean].) *)
Theorem calculateStatistics_spec (ys : list Q) :
  ys <> [] ->
  exists mn mx av vol,
    (In mn ys /\ forall y, In y ys -> mn <= y)
    /\ (In mx ys /\ forall y, In y ys -> y <= mx)
    /\ av == Sy ys / qnat (length ys)
    /\ vol = ((Fin mx - Fin mn) / Fin av * Fin 100)%js
    /\ calculateStatistics (series ys)
       = {| average := Fin av; min := Fin mn; max := Fin mx;
            volatility := vol |}
    /\ historicalStatistics (series ys)
       = {| average := Fin av; min := Fin mn; max := Fin mx;
            volatility := toFixed_parsed 2 vol |}
    /\ (~ av == 0 ->
        has_value vol ((mx - mn) / av * 100)
        /\ (Qabs ((mx - mn) / av * 100) < inject_Z (10 ^ 21) ->
            exists cents : Z,
              has_value (toFixed_parsed 2 vol) (inject_Z cents / 100)
              /\ Qabs (inject_Z cents / 100 - (mx - mn) / av * 100) <= 1 # 200))
    /\ has_value (volatility (calculateStatistics (series [100; 100; 100]))) 0
    /\ has_value (volatility (historicalStatistics (series [100; 100; 100]))) 0.
Proof.
  intros H.
  destruct (calculateStatistics_fin ys H)
    as [mn [mx [av [Imn [Lmn [Imx [Lmx [Eav [Ec Es]]]]]]]]].
  exists mn, mx, av, ((Fin mx - Fin mn) / Fin av * Fin 100)%js.
  split; [now split|]. split; [now split|].
  split; [exact Eav|]. split; [reflexivity|].
  split; [exact Ec|]. split; [exact Es|]. split.
  - intros Hav. cbn [sub]. rewrite div_fin by exact Hav. cbn [mul].
    split; [simpl; reflexivity|].
    intros Hb. destruct (toFixed_parsed_hundredths _ Hb) as [cents [E1 E2]].
    exists cents. rewrite E1. split; [simpl; reflexivity | exact E2].
  - split; vm_compute; reflexivity.
Qed.

Lemma calculateStatistics_spec_witness :
  let ys := [1; 2; 4] in
  exists mn mx av vol,
    (In mn ys /\ forall y, In y ys -> mn <= y)
    /\ (In mx ys /\ forall y, In y ys -> y <= mx)
    /\ av == Sy ys / qnat (length ys)
    /\ vol = ((Fin mx - Fin mn) / Fin av * Fin 100)%js
    /\ calculateStatistics (series ys)
       = {| average := Fin av; min := Fin mn; max := Fin mx;
            volatility := vol |}
    /\ historicalStatistics (series ys)
       = {| average := Fin av; min := Fin mn; max := Fin mx;
            volatility := toFixed_parsed 2 vol |}
    /\ (~ av == 0 ->
        has_value vol ((mx - mn) / av * 100)
        /\ (Qabs ((mx - mn) / av * 100) < inject_Z (10 ^ 21) ->
            exists cents : Z,
              has_value (toFixed_parsed 2 vol) (inject_Z cents / 100)
              /\ Qabs (inject_Z cents / 100 - (mx - mn) / av * 100) <= 1 # 200))
    /\ has_value (volatility (calculateStatistics (series [100; 100; 100]))) 0
    /\ has_value (volatility (historicalStatistics (series [100; 100; 100]))) 0.
Proof.
  apply (calculateStatistics_spec [1; 2; 4]). discriminate.
Defined.

(** C10, in exact arithmetic.  For every non-empty series the summary
    satisfies min <= average <= max, and when every rate is strictly
    positive the volatility is a finite number that is not negative.
    (In binary64 the rounded mean can leave the interval, see
    [Rounding.mean_above_max].) *)
Theorem calculateStatistics_mean_between (ys : list Q) :
  ys <> [] ->
  exists mn av mx,
    min (calculateStatistics (series ys)) = Fin mn
    /\ average (calculateStatistics (series ys)) = Fin av
    /\ max (calculateStatistics (series ys)) = Fin mx
    /\ mn <= av /\ av <= mx
    /\ ((forall y, In y ys -> 0 < y) ->
        exists v, volatility (calculateStatistics (series ys)) = Fin v
                  /\ v == (mx - mn) / av * 100 /\ 0 <= v).
Proof.
  intros H.
  destruct (calculateStatistics_fin ys H)
    as [mn [mx [av [Imn [Lmn [Imx [Lmx [Eav [Ec _]]]]]]]]].
  destruct (mean_between ys mn mx H Lmn Lmx) as [B1 B2].
  exists mn, av, mx. rewrite Ec. cbn [min average max volatility].
  repeat (split; [reflexivity|]).
  split; [lra|]. split; [lra|].
  intros Hpos. assert (0 < mn) by now apply Hpos.
  cbn [sub]. rewrite div_fin by lra. cbn [mul].
  eexists. split; [reflexivity|]. split; [reflexivity|].
  assert (0 <= (mx - mn) / av).
  { apply Qle_shift_div_l; lra. }
  lra.
Qed.

Lemma calculateStatistics_mean_between_witness :
  let ys := [0.90; 0.94; 0.92] in
  exists mn av mx,
    min (calculateStatistics (series ys)) = Fin mn
    /\ average (calculateStatistics (series ys)) = Fin av
    /\ max (calculateStatistics (series ys)) = Fin mx
    /\ mn <= av /\ av <= mx
    /\ ((forall y, In y ys -> 0 < y) ->
        exists v, volatility (calculateStatistics (series ys)) = Fin v
                  /\ v == (mx - mn) / av * 100 /\ 0 <= v).
Proof.
  apply (calculateStatistics_mean_between [0.90; 0.94; 0.92]). discriminate.
Defined.

(* ================================================================== *)
(** ** Trend analyzer                                                 *)
(* ================================================================== *)

Lemma lt_fin_intro (p q : Q) : p < q -> (Fin p <? Fin q)%js = true.
Proof.
  intros H. unfold lt. destruct (p ?= q) eqn:E; [|reflexivity|].
  - apply Qeq_alt in E. lra.
  - apply Qgt_alt in E. lra.
Qed.

Lemma lt_fin_refute (p q : Q) : q <= p -> (Fin p <? Fin q)%js = false.
Proof.
  intros H. destruct (Fin p <? Fin q)%js eqn:E; [|reflexivity].
  apply lt_fin_true in E. lra.
Qed.

Lemma at_first_series (ys : list Q) :
  ys <> [] -> at_index (series ys) 0 = Fin (obs ys 0).
Proof.
  intros H. apply series_nth. destruct ys; [contradiction | simpl; lia].
Qed.

Lemma at_last_series (ys : list Q) :
  ys <> [] -> at_last (series ys) = Fin (obs ys (length ys - 1)).
Proof.
  intros H. destruct ys as [|y t]; [contradiction|].
  change (at_last (series (y :: t)))
    with (at_index (series (y :: t)) (length (series (y :: t)) - 1)).
  rewrite series_length. apply series_nth. simpl. lia.
Qed.

(** C5, in exact arithmetic.  For every series of length >= 2 whose
    first element is not zero, the trend analyzer returns
    percentChange = (last - first) / first * 100 from the raw end points
    of the series, and the direction of the fitted slope: up above
    0.0001, down below -0.0001, stable in between.  The two can
    disagree: some series is classified up while its percent change is
    negative.  (In binary64 the rounded slope can fall on the other side
    of a threshold, see [Rounding.direction_off_exact_slope].) *)
Theorem analyzeTrend_spec (ys : list Q) :
  (2 <= length ys)%nat -> ~ obs ys 0 == 0 ->
  has_value (percentChange (analyzeTrend (series ys)))
            ((obs ys (length ys - 1) - obs ys 0) / obs ys 0 * 100)
  /\ (0.0001 < ols_slope ys -> direction (analyzeTrend (series ys)) = up)
  /\ (ols_slope ys < - 0.0001 -> direction (analyzeTrend (series ys)) = down)
  /\ (- 0.0001 <= ols_slope ys /\ ols_slope ys <= 0.0001 ->
      direction (analyzeTrend (series ys)) = stable)
  /\ exists zs p,
       direction (analyzeTrend (series zs)) = up
       /\ has_value (percentChange (analyzeTrend (series zs))) p
       /\ p < 0.
Proof.
  intros Hn Hf.
  assert (Hne : ys <> []) by (destruct ys; [simpl in Hn; lia | discriminate]).
  destruct (linearRegression_fit ys Hn) as [s [b [E [Es Eb]]]].
  unfold analyzeTrend. rewrite E, at_first_series, at_last_series by exact Hne.
  cbn [slope direction percentChange sub].
  rewrite div_fin by exact Hf. cbn [mul has_value]. unfold gt.
  split; [reflexivity|]. split; [|split; [|split]].
  - intros H. rewrite lt_fin_intro by lra. reflexivity.
  - intros H. rewrite lt_fin_refute by lra. rewrite lt_fin_intro by lra.
    reflexivity.
  - intros [H1 H2]. rewrite lt_fin_refute by lra.
    rewrite lt_fin_refute by lra. reflexivity.
  - exists [2; 0; 2; 1.9], (-5). vm_compute. repeat split; discriminate.
Qed.

Lemma analyzeTrend_spec_witness :
  let ys := [2; 0; 2; 1.9] in
  has_value (percentChange (analyzeTrend (series ys)))
            ((obs ys (length ys - 1) - obs ys 0) / obs ys 0 * 100)
  /\ (0.0001 < ols_slope ys -> direction (analyzeTrend (series ys)) = up)
  /\ (ols_slope ys < - 0.0001 -> direction (analyzeTrend (series ys)) = down)
  /\ (- 0.0001 <= ols_slope ys /\ ols_slope ys <= 0.0001 ->
      direction (analyzeTrend (series ys)) = stable)
  /\ exists zs p,
       direction (analyzeTrend (series zs)) = up
       /\ has_value (percentChange (analyzeTrend (series zs))) p
       /\ p < 0.
Proof.
  apply (analyzeTrend_spec [2; 0; 2; 1.9]).
  - simpl. lia.
  - discriminate.
Defined.

(* ================================================================== *)
(** ** The trend analysis of the forecast endpoint                    *)
(* ================================================================== *)

Lemma push_loop_length (body : Rand number) (n : nat) :
  forall acc g, length (fst (push_loop n body acc g)) = (length acc + n)%nat.
Proof.
  induction n as [|n IH]; intros acc g; simpl.
  - now rewrite Nat.add_0_r.
  - unfold bind. destruct (body g) as [v g1].
    rewrite IH, length_app. simpl. lia.
Qed.

(** What the loop that simulates the history does in [n] rounds: it
    appends one rate per round, built from the next value of the
    generator, and leaves the generator after the last value used. *)
Lemma push_loop_run (h : Q -> number) (body : Rand number) :
  (forall g, body g = (h (g 0%nat), fun k => g (S k))) ->
  forall (n : nat) (acc : list number) (g : rng),
    fst (push_loop n body acc g) = acc ++ map (fun i => h (g i)) (seq 0 n)
    /\ forall k, snd (push_loop n body acc g) k = g (n + k)%nat.
Proof.
  intros Hb. induction n as [|n IH]; intros acc g.
  - simpl. now rewrite app_nil_r.
  - cbn [push_loop]. unfold bind. rewrite Hb.
    destruct (IH (acc ++ [h (g 0%nat)]) (fun k => g (S k))) as [IH1 IH2].
    split.
    + rewrite IH1, <- app_assoc. cbn [app seq map].
      now rewrite <- seq_shift, map_map.
    + intros k. now rewrite IH2.
Qed.

(** C8.  In the forecast endpoint with hardcoded rates, asked for up to
    [maxDays] days, the forecast is generated from the 90 simulated
    rates around the base rate, and the percent change is taken between
    the first and the last point of that generated, noisy forecast (not
    of the historical series); the direction comes from that percent
    change alone: up above 0.5, down below -0.5, stable otherwise.  The
    response carries the percent change rounded to two decimals. *)
Theorem forecastEndpoint_trend (baseRate : number) (days : Z) (g : rng) :
  (days <= maxDays)%Z ->
  let response := fst (forecastEndpoint baseRate days g) in
  let historicalRates :=
    map (fun i => (baseRate + (Fin (g i) - Fin 0.5) * Fin 0.06 * baseRate)%js)
        (seq 0 90) in
  let forecastRates := map rate (forecast response) in
  let pc :=
    (((at_last forecastRates - at_index forecastRates 0)
      / at_index forecastRates 0) * Fin 100)%js in
  let dir := analysis_direction (analysis response) in
  forecastRates
  = fst (generateForecast historicalRates days (fun k => g (90 + k)%nat))
  /\ map dayOffset (forecast response) = seq 1 (Z.to_nat days)
  /\ analysis_percentChange (analysis response) = toFixed_parsed 2 pc
  /\ match pc with
     | Fin p => (0.5 < p /\ dir = up)
                \/ (p < - 0.5 /\ dir = down)
                \/ ((- 0.5 <= p /\ p <= 0.5) /\ dir = stable)
     | PosInf => dir = up
     | NegInf => dir = down
     | NaN => dir = stable
     end.
Proof.
  intros _ response historicalRates forecastRates pc dir.
  unfold forecastEndpoint in response.
  set (body := r <- Math_random ;;
               ret (baseRate + (r - Fin 0.5) * Fin 0.06 * baseRate)%js)
    in response.
  destruct (push_loop_run
              (fun r => (baseRate + (Fin r - Fin 0.5) * Fin 0.06 * baseRate)%js)
              body ltac:(intros; reflexivity) 90 [] g) as [H1 H2].
  unfold bind in response.
  destruct (push_loop 90 body [] g) as [history g1].
  cbn [fst snd app] in H1, H2.
  destruct (generateForecast history days g1) as [fr g2] eqn:EF.
  cbn in response.
  assert (Efr : forecastRates = fr).
  { unfold forecastRates, response. cbn [fst forecast].
    apply datedForecast_rates. }
  assert (Edir : dir = forecastDirection pc).
  { unfold dir, response, pc. rewrite Efr. reflexivity. }
  split; [|split; [|split]].
  - rewrite Efr. change fr with (fst (fr, g2)). rewrite <- EF.
    unfold historicalRates. rewrite <- H1.
    apply generateForecast_ext. exact H2.
  - unfold response. cbn [fst forecast].
    rewrite datedForecast_offsets. f_equal.
    change fr with (fst (fr, g2)). rewrite <- EF.
    apply generateForecast_run.
  - unfold response, pc. rewrite Efr. reflexivity.
  - rewrite Edir. unfold forecastDirection, gt.
    destruct pc as [p| | |]; try reflexivity.
    destruct (Fin 0.5 <? Fin p)%js eqn:E1.
    + left. apply lt_fin_true in E1. split; [lra | reflexivity].
    + apply lt_fin_false in E1.
      destruct (Fin p <? Fin (-0.5))%js eqn:E2.
      * right; left. apply lt_fin_true in E2. split; [lra | reflexivity].
      * right; right. apply lt_fin_false in E2.
        split; [split; lra | reflexivity].
Qed.

Lemma forecastEndpoint_trend_witness :
  let baseRate := Fin 0.92 in
  let g : rng := fun k => qnat k / 200 in
  let response := fst (forecastEndpoint baseRate 7 g) in
  let historicalRates :=
    map (fun i => (baseRate + (Fin (g i) - Fin 0.5) * Fin 0.06 * baseRate)%js)
        (seq 0 90) in
  let forecastRates := map rate (forecast response) in
  let pc :=
    (((at_last forecastRates - at_index forecastRates 0)
      / at_index forecastRates 0) * Fin 100)%js in
  let dir := analysis_direction (analysis response) in
  forecastRates
  = fst (generateForecast historicalRates 7 (fun k => g (90 + k)%nat))
  /\ map dayOffset (forecast response) = seq 1 (Z.to_nat 7)
  /\ analysis_percentChange (analysis response) = toFixed_parsed 2 pc
  /\ match pc with
     | Fin p => (0.5 < p /\ dir = up)
                \/ (p < - 0.5 /\ dir = down)
                \/ ((- 0.5 <= p /\ p <= 0.5) /\ dir = stable)
     | PosInf => dir = up
     | NegInf => dir = down
     | NaN => dir = stable
     end.
Proof.
  apply (forecastEndpoint_trend (Fin 0.92) 7 (fun k => qnat k / 200)).
  discriminate.
Defined.

(* ================================================================== *)
(** ** Confidence                                                     *)
(* ================================================================== *)

Lemma predictions_nth (s b : Q) (n k : nat) :
  (k < n)%nat ->
  at_index (map (fun x => Fin s * x + Fin b)%js (Array_from n of_nat)) k
  = Fin (s * qnat k + b).
Proof.
  intros H. unfold at_index.
  rewrite (nth_indep _ NaN ((fun x => Fin s * x + Fin b)%js NaN))
    by (rewrite length_map, indices_length; exact H).
  rewrite (map_nth (fun x => Fin s * x + Fin b)%js).
  rewrite indices_nth by exact H. reflexivity.
Qed.

Lemma squared_error_ext (ys : list Q) (s b s' b' : Q) :
  s == s' -> b == b' -> squared_error ys s b == squared_error ys s' b'.
Proof.
  intros Hs Hb. apply bigsum_ext. intros i _. rewrite Hs, Hb. reflexivity.
Qed.

(** The confidence is the clamped R-squared of the fit, with the total
    and the residual sum of squares of the series. *)
Lemma calculateConfidence_sums (ys : list Q) :
  (2 <= length ys)%nat ->
  exists sst ssr,
    sst == total_variation ys
    /\ ssr == squared_error ys (ols_slope ys) (ols_intercept ys)
    /\ calculateConfidence (series ys)
       = Math_min [Fin 95;
                   Math_max [Fin 50;
                             ((Fin 1 - Fin ssr / Fin sst) * Fin 100)%js]].
Proof.
  intros Hn.
  assert (Hne : ys <> []) by (destruct ys; [simpl in Hn; lia | discriminate]).
  destruct (linearRegression_fit ys Hn) as [s [b [E [Es Eb]]]].
  destruct (mean_value ys Hne) as [av [Eav Hav]].
  unfold calculateConfidence. rewrite E, Eav. cbn [slope intercept].
  rewrite series_length.
  destruct (reduce_sum (fun i => (obs ys i - av) * (obs ys i - av))
              (fun sum y _ => sum + Math_pow2 (y - Fin av))%js (series ys))
    as [sst [-> Et]].
  { intros k a Hk. rewrite series_length in Hk.
    rewrite series_nth by exact Hk. reflexivity. }
  destruct (reduce_sum
              (fun i => (obs ys i - (s * qnat i + b))
                        * (obs ys i - (s * qnat i + b)))
              (fun sum y i =>
                 sum + Math_pow2
                         (y - at_index
                                (map (fun x => Fin s * x + Fin b)
                                     (Array_from (length ys) of_nat)) i))%js
              (series ys))
    as [ssr [-> Er]].
  { intros k a Hk. rewrite series_length in Hk.
    rewrite series_nth, predictions_nth by exact Hk. reflexivity. }
  rewrite series_length in Et, Er.
  exists sst, ssr. split; [|split; [|reflexivity]].
  - rewrite Et. apply bigsum_ext. intros i _. rewrite Hav. reflexivity.
  - rewrite Er. fold (squared_error ys s b). now apply squared_error_ext.
Qed.

Lemma obs_repeat (c : Q) (n i : nat) : (i < n)%nat -> obs (repeat c n) i = c.
Proof.
  intros H. unfold obs. rewrite (nth_indep _ 0 c) by now rewrite repeat_length.
  apply nth_repeat.
Qed.

Lemma squared_error_nonneg (ys : list Q) (a c : Q) : 0 <= squared_error ys a c.
Proof.
  apply bigsum_nonneg. intros i _.
  set (t := obs ys i - (a * qnat i + c)). nra.
Qed.

Lemma bigsum_zero (n : nat) (f : nat -> Q) :
  (forall i, (i < n)%nat -> f i == 0) -> bigsum n f == 0.
Proof.
  intros H. rewrite (bigsum_ext n f (fun _ => 0)) by exact H.
  rewrite bigsum_const. ring.
Qed.

Lemma constant_mean (c : Q) (n : nat) :
  (2 <= n)%nat -> mean_y (repeat c n) == c.
Proof.
  intros Hn. unfold mean_y, Sy. rewrite repeat_length.
  rewrite (bigsum_ext n (obs (repeat c n)) (fun _ => c))
    by (intros i Hi; now rewrite obs_repeat).
  rewrite bigsum_const. pose proof (qnat_ge_2 n Hn). field. lra.
Qed.

(** C4, what the code does.  For every constant series of length >= 2
    the total and the residual sum of squares are, in exact arithmetic,
    both zero, R-squared is the quotient 0/0, and the clamp lets the
    [NaN] through: [calculateConfidence] returns [NaN], not 95. *)
Theorem calculateConfidence_constant (c : Q) (n : nat) :
  (2 <= n)%nat -> calculateConfidence (series (repeat c n)) = NaN.
Proof.
  intros Hn.
  assert (Hl : (2 <= length (repeat c n))%nat) by now rewrite repeat_length.
  destruct (calculateConfidence_sums (repeat c n) Hl) as [sst [ssr [Et [Er ->]]]].
  assert (Z1 : sst == 0).
  { rewrite Et. unfold total_variation. apply bigsum_zero.
    intros i Hi. rewrite repeat_length in Hi.
    rewrite obs_repeat, constant_mean by assumption. ring. }
  assert (Z2 : ssr == 0).
  { pose proof (linearRegression_least_squares (repeat c n) 0 c Hl) as LS.
    pose proof (squared_error_nonneg (repeat c n)
                  (ols_slope (repeat c n)) (ols_intercept (repeat c n))) as NN.
    assert (Z : squared_error (repeat c n) 0 c == 0).
    { apply bigsum_zero. intros i Hi. rewrite repeat_length in Hi.
      rewrite obs_repeat by exact Hi. ring. }
    rewrite Er. lra. }
  rewrite (div_zero_zero ssr sst Z2 Z1). reflexivity.
Qed.

Lemma calculateConfidence_constant_witness :
  calculateConfidence (series (repeat 1 2)) = NaN.
Proof.
  apply (calculateConfidence_constant 1 2). lia.
Defined.

(** The clamp itself is sound on every finite number. *)
Lemma clamp_range (r : Q) :
  exists v, Math_min [Fin 95; Math_max [Fin 50; Fin r]] = Fin v
            /\ 50 <= v /\ v <= 95.
Proof.
  unfold Math_max. cbn [existsb isNaN orb fold_left].
  change (Fin 50 >? NegInf)%js with true. cbv iota.
  destruct (Fin r >? Fin 50)%js eqn:E1; unfold gt in E1;
    unfold Math_min; cbn [existsb isNaN orb fold_left];
    change (Fin 95 <? PosInf)%js with true; cbv iota.
  - apply lt_fin_true in E1.
    destruct (Fin r <? Fin 95)%js eqn:E2.
    + apply lt_fin_true in E2. exists r. split; [reflexivity | lra].
    + exists 95. split; [reflexivity | lra].
  - change (Fin 50 <? Fin 95)%js with true. cbv iota.
    exists 50. split; [reflexivity | lra].
Qed.

(** Away from the degenerate case the confidence is a finite number
    between 50 and 95. *)
Lemma calculateConfidence_range (ys : list Q) :
  (2 <= length ys)%nat -> ~ total_variation ys == 0 ->
  exists v, calculateConfidence (series ys) = Fin v /\ 50 <= v /\ v <= 95.
Proof.
  intros Hn Hv.
  destruct (calculateConfidence_sums ys Hn) as [sst [ssr [Et [Er ->]]]].
  rewrite div_fin by (rewrite Et; exact Hv).
  cbn [sub mul]. apply clamp_range.
Qed.

Lemma bigsum_nonneg_zero (n : nat) (f : nat -> Q) :
  (forall i, (i < n)%nat -> 0 <= f i) -> bigsum n f == 0 ->
  forall i, (i < n)%nat -> f i == 0.
Proof.
  induction n as [|n IH]; intros Hf Hz i Hi; [lia|].
  simpl in Hz.
  assert (0 <= bigsum n f) by (apply bigsum_nonneg; intros; apply Hf; lia).
  assert (0 <= f n) by (apply Hf; lia).
  destruct (Nat.eq_dec i n) as [-> | Hne]; [lra|].
  apply IH; [intros; apply Hf; lia | lra | lia].
Qed.

(** The degenerate case is the constant series and no other: a series
    whose total sum of squares is zero has every observation equal to
    the mean. *)
Lemma total_variation_zero (ys : list Q) :
  total_variation ys == 0 ->
  forall i, (i < length ys)%nat -> obs ys i == mean_y ys.
Proof.
  intros Hz i Hi.
  assert (Hsq : (obs ys i - mean_y ys) * (obs ys i - mean_y ys) == 0).
  { apply (bigsum_nonneg_zero (length ys)
             (fun k => (obs ys k - mean_y ys) * (obs ys k - mean_y ys))).
    - intros k _. set (t := obs ys k - mean_y ys). nra.
    - exact Hz.
    - exact Hi. }
  apply Qmult_integral in Hsq. destruct Hsq; lra.
Qed.

(* ================================================================== *)
(** ** Rounding                                                       *)
(* ================================================================== *)

Module Rounding.

Import PrimFloat.
Local Open Scope float_scope.
Local Set Warnings "-inexact-float".

(** On the degenerate inputs binary64 agrees with the exact model: one
    observation gives a [NaN] fit, the empty series a [NaN] mean with
    infinite extremes, and the constant series [1, 1] a [NaN]
    confidence. *)
Lemma degenerate_inputs :
  is_nan (Binary64.slope (Binary64.linearRegression [1])) = true
  /\ is_nan (Binary64.intercept (Binary64.linearRegression [1])) = true
  /\ is_nan (Binary64.average (Binary64.calculateStatistics [])) = true
  /\ Binary64.min (Binary64.calculateStatistics []) = infinity
  /\ Binary64.max (Binary64.calculateStatistics []) = neg_infinity
  /\ is_nan (Binary64.calculateConfidence [1; 1]) = true.
Proof. vm_compute. repeat split. Qed.

(** In binary64 the intercept returned for [1, 2, 4] is not
    mean(y) - slope * mean(x), and the residuals of the fit do not sum
    to zero. *)
Lemma intercept_off_centroid :
  let rates := [1; 2; 4] in
  let fit := Binary64.linearRegression rates in
  eqb (Binary64.intercept fit)
      (Binary64.mean_y rates - Binary64.slope fit * Binary64.mean_x rates)
  = false
  /\ eqb (Binary64.residual_sum rates fit) 0 = false.
Proof. vm_compute. split; reflexivity. Qed.

(** In binary64 the mean of [0.1, 0.1, 0.1] is larger than the largest
    observation. *)
Lemma mean_above_max :
  let statistics := Binary64.calculateStatistics [0.1; 0.1; 0.1] in
  ltb (Binary64.max statistics) (Binary64.average statistics) = true.
Proof. vm_compute. reflexivity. Qed.

(** In binary64 the sum of [1e308, 1e308] overflows and the fit is
    [NaN], where the closed form of a series of two equal rates is the
    slope 0 with the rate as intercept. *)
Lemma closed_form_overflow :
  let fit := Binary64.linearRegression [1e308; 1e308] in
  is_nan (Binary64.slope fit) = true
  /\ is_nan (Binary64.intercept fit) = true
  /\ forall y : Q, (ols_slope [y; y] == 0 /\ ols_intercept [y; y] == y)%Q.
Proof.
  split; [vm_compute; reflexivity|]. split; [vm_compute; reflexivity|].
  intros y.
  unfold ols_intercept, ols_slope, ols_denominator, Sx, Sy, Sxy, Sxx, obs.
  cbn [length bigsum nth].
  change (qnat 2) with 2%Q. change (qnat 1) with 1%Q. change (qnat 0) with 0%Q.
  split; field; discriminate.
Qed.

(** In binary64 the series [1, 1.0001] is classified up: the numerator
    of the slope, 2 * 1.0001 - 2.0001, rounds to more than 0.0001.  The
    least-squares slope of two rates is their difference, which
    binary64 computes exactly here and which is below the threshold, so
    that the exact slope classifies the series stable. *)
Lemma direction_off_exact_slope :
  Binary64.direction (Binary64.analyzeTrend [1; 1.0001]) = up
  /\ ltb 0.0001 (Binary64.slope (Binary64.linearRegression [1; 1.0001]))
     = true
  /\ ltb (1.0001 - 1) 0.00009999999999999 = true
  /\ direction (analyzeTrend (series [1%Q; 1.0001%Q])) = stable.
Proof. vm_compute. repeat split. Qed.

(** In binary64 the average of [0.1, 0.1, 0.1] is not 0.1, the
    arithmetic mean of three rates that are equal. *)
Lemma average_off_mean :
  let statistics := Binary64.calculateStatistics [0.1; 0.1; 0.1] in
  eqb (Binary64.average statistics) 0.1 = false
  /\ Binary64.min statistics = 0.1
  /\ Binary64.max statistics = 0.1
  /\ forall c : Q, (Sy [c; c; c] / qnat 3 == c)%Q.
Proof.
  split; [vm_compute; reflexivity|]. split; [vm_compute; reflexivity|].
  split; [vm_compute; reflexivity|].
  intros c. unfold Sy, obs. cbn [length bigsum nth].
  change (qnat 3) with 3%Q. field.
Qed.

End Rounding.

(* ================================================================== *)
(** ** More on the regression fitter                                  *)
(* ================================================================== *)

(** In exact arithmetic, from two observations on, the returned line is
    a least-squares line: no line has a smaller sum of squared residuals
    on the series. *)
Theorem linearRegression_minimises (ys : list Q) :
  (2 <= length ys)%nat ->
  exists s b,
    linearRegression (series ys) = {| slope := Fin s; intercept := Fin b |}
    /\ forall a c, squared_error ys s b <= squared_error ys a c.
Proof.
  intros Hn. destruct (linearRegression_fit ys Hn) as [s [b [E [Es Eb]]]].
  exists s, b. split; [exact E|]. intros a c.
  rewrite (squared_error_ext ys s b _ _ Es Eb).
  now apply linearRegression_least_squares.
Qed.

Lemma linearRegression_minimises_witness :
  exists s b,
    linearRegression (series [1; 2; 4])
    = {| slope := Fin s; intercept := Fin b |}
    /\ forall a c, squared_error [1; 2; 4] s b <= squared_error [1; 2; 4] a c.
Proof.
  apply (linearRegression_minimises [1; 2; 4]). simpl. lia.
Defined.

Lemma line_length (a b : Q) (n : nat) : length (line a b n) = n.
Proof. unfold line. now rewrite length_map, length_seq. Qed.

Lemma line_obs (a b : Q) (n i : nat) :
  (i < n)%nat -> obs (line a b n) i = a + b * qnat i.
Proof.
  intros H. unfold obs, line.
  rewrite (nth_indep _ 0 ((fun i => a + b * qnat i) 0%nat))
    by (rewrite length_map, length_seq; exact H).
  rewrite (map_nth (fun i => a + b * qnat i)), seq_nth by exact H.
  reflexivity.
Qed.

Lemma line_sums (a b : Q) (n : nat) :
  Sy (line a b n) == qnat n * a + b * Sx (line a b n)
  /\ Sxy (line a b n) == a * Sx (line a b n) + b * Sxx (line a b n).
Proof.
  unfold Sy, Sxy, Sx, Sxx. rewrite line_length.
  assert (G : forall m, (m <= n)%nat ->
            bigsum m (obs (line a b n)) == qnat m * a + b * bigsum m qnat
            /\ bigsum m (fun i => qnat i * obs (line a b n) i)
               == a * bigsum m qnat + b * bigsum m (fun i => qnat i * qnat i)).
  { induction m as [|m IH]; intros Hm; simpl.
    - change (qnat 0) with 0. split; ring.
    - destruct IH as [IH1 IH2]; [lia|].
      rewrite IH1, IH2, line_obs, qnat_S by lia. split; ring. }
  apply G. lia.
Qed.

(** In exact arithmetic a series that lies on a line is fitted by that
    line: slope and intercept are returned as they are. *)
Theorem linearRegression_recovers_line (a b : Q) (n : nat) :
  (2 <= n)%nat ->
  exists s c,
    linearRegression (series (line a b n))
    = {| slope := Fin s; intercept := Fin c |}
    /\ s == b /\ c == a.
Proof.
  intros Hn.
  assert (Hl : (2 <= length (line a b n))%nat) by now rewrite line_length.
  destruct (linearRegression_fit _ Hl) as [s [c [E [Es Ec]]]].
  pose proof (ols_denominator_pos _ Hl) as Hd.
  pose proof (qnat_ge_2 _ Hl) as Hq.
  destruct (line_sums a b n) as [L1 L2].
  assert (Hs : s == b).
  { rewrite Es. unfold ols_slope. unfold ols_denominator in *.
    rewrite L1, L2. rewrite line_length in *. field. lra. }
  exists s, c. split; [exact E|]. split; [exact Hs|].
  rewrite Ec. unfold ols_intercept. rewrite <- Es, Hs, L1.
  rewrite line_length in *. field. lra.
Qed.

Lemma linearRegression_recovers_line_witness :
  exists s c,
    linearRegression (series (line 0.90 0.01 5))
    = {| slope := Fin s; intercept := Fin c |}
    /\ s == 0.01 /\ c == 0.90.
Proof.
  apply (linearRegression_recovers_line 0.90 0.01 5). lia.
Defined.

(* ================================================================== *)
(** ** More on the confidence                                         *)
(* ================================================================== *)

Lemma clamp_top (r : Q) :
  95 <= r -> Math_min [Fin 95; Math_max [Fin 50; Fin r]] = Fin 95.
Proof.
  intros H. unfold Math_max. cbn [existsb isNaN orb fold_left].
  change (Fin 50 >? NegInf)%js with true. cbv iota.
  unfold gt. rewrite lt_fin_intro by lra.
  unfold Math_min. cbn [existsb isNaN orb fold_left].
  change (Fin 95 <? PosInf)%js with true. cbv iota.
  rewrite lt_fin_refute by lra. reflexivity.
Qed.

(** In exact arithmetic, whenever two observations differ, the
    confidence is a finite number between 50 and 95. *)
Theorem calculateConfidence_bounded (ys : list Q) (i j : nat) :
  (i < length ys)%nat -> (j < length ys)%nat -> ~ obs ys i == obs ys j ->
  exists v, calculateConfidence (series ys) = Fin v /\ 50 <= v /\ v <= 95.
Proof.
  intros Hi Hj Hne.
  assert (Hn : (2 <= length ys)%nat).
  { destruct (Nat.eq_dec i j) as [-> | D]; [exfalso; apply Hne; reflexivity|].
    lia. }
  apply calculateConfidence_range; [exact Hn|].
  intros Hz. apply Hne.
  rewrite (total_variation_zero ys Hz i Hi), (total_variation_zero ys Hz j Hj).
  reflexivity.
Qed.

Lemma calculateConfidence_bounded_witness :
  exists v, calculateConfidence (series [1; 2; 1; 4; 5]) = Fin v
            /\ 50 <= v /\ v <= 95.
Proof.
  apply (calculateConfidence_bounded [1; 2; 1; 4; 5] 0 1).
  - simpl. lia.
  - simpl. lia.
  - discriminate.
Defined.

(** In exact arithmetic a series that lies on a line that is not flat
    has the highest confidence, 95. *)
Theorem calculateConfidence_of_line (a b : Q) (n : nat) :
  (2 <= n)%nat -> ~ b == 0 ->
  calculateConfidence (series (line a b n)) = Fin 95.
Proof.
  intros Hn Hb.
  assert (Hl : (2 <= length (line a b n))%nat) by now rewrite line_length.
  destruct (calculateConfidence_sums _ Hl) as [sst [ssr [Et [Er ->]]]].
  assert (Ht : ~ sst == 0).
  { rewrite Et. intros Hz.
    pose proof (total_variation_zero _ Hz 0%nat) as H0.
    pose proof (total_variation_zero _ Hz 1%nat) as H1.
    rewrite line_length in H0, H1.
    rewrite line_obs in H0 by lia. rewrite line_obs in H1 by lia.
    rewrite <- H0 in H1 by lia. change (qnat 0) with 0 in H1.
    change (qnat 1) with 1 in H1. apply Hb.
    assert (a + b * 1 == a + b * 0) by (apply H1; lia). lra. }
  assert (Hr : ssr == 0).
  { pose proof (linearRegression_least_squares (line a b n) b a Hl) as LS.
    pose proof (squared_error_nonneg (line a b n)
                  (ols_slope (line a b n)) (ols_intercept (line a b n))) as NN.
    assert (Z : squared_error (line a b n) b a == 0).
    { apply bigsum_zero. intros i Hi. rewrite line_length in Hi.
      rewrite line_obs by exact Hi. ring. }
    rewrite Er. lra. }
  rewrite div_fin by exact Ht. cbn [sub mul].
  apply clamp_top. rewrite Hr.
  assert (E0 : 0 / sst == 0) by (unfold Qdiv; ring).
  rewrite E0. lra.
Qed.

Lemma calculateConfidence_of_line_witness :
  calculateConfidence (series (line 1 1 5)) = Fin 95.
Proof.
  apply (calculateConfidence_of_line 1 1 5); [lia | discriminate].
Defined.

(* ================================================================== *)
(** ** More on the forecast generator and the trend analyzer          *)
(* ================================================================== *)

(** For a number of days an array can hold, [generateForecast] returns
    [days] points, none when [days] is not positive, and takes exactly
    one random number per point, in order: the generator it leaves
    starts at the first value it did not use.  This holds for every
    series, also one too short to be fitted. *)
Theorem generateForecast_draws (rates : list number) (days : Z) (g : rng) :
  (days <= Array_maxLength)%Z ->
  length (fst (generateForecast rates days g)) = Z.to_nat days
  /\ (forall k, snd (generateForecast rates days g) k
                = g (Z.to_nat days + k)%nat)
  /\ ((days <= 0)%Z -> fst (generateForecast rates days g) = []).
Proof.
  intros _.
  destruct (generateForecast_run rates days g) as [L [_ S]].
  split; [exact L|]. split; [exact S|].
  intros Hd. apply length_zero_iff_nil. rewrite L. lia.
Qed.

Lemma generateForecast_draws_witness :
  let rates := series [0.92] in
  let g : rng := fun k => qnat k / 10 in
  length (fst (generateForecast rates 3 g)) = Z.to_nat 3
  /\ (forall k, snd (generateForecast rates 3 g) k = g (Z.to_nat 3 + k)%nat)
  /\ ((3 <= 0)%Z -> fst (generateForecast rates 3 g) = []).
Proof.
  apply (generateForecast_draws (series [0.92]) 3 (fun k => qnat k / 10)).
  discriminate.
Defined.

(** On a series of one observation the analyzer answers stable, with a
    percent change of 0, or of NaN when the observation is 0; on the
    empty series it answers stable with a percent change of NaN. *)
Theorem analyzeTrend_short :
  analyzeTrend (series []) = {| direction := stable; percentChange := NaN |}
  /\ forall v,
       direction (analyzeTrend (series [v])) = stable
       /\ (~ v == 0 -> has_value (percentChange (analyzeTrend (series [v]))) 0)
       /\ (v == 0 -> percentChange (analyzeTrend (series [v])) = NaN).
Proof.
  split; [reflexivity|]. intros v.
  unfold analyzeTrend.
  rewrite (linearRegression_short [v]) by (simpl; lia).
  cbn [slope direction percentChange].
  change (at_index (series [v]) 0) with (Fin v).
  change (at_last (series [v])) with (Fin v).
  split; [reflexivity|]. split.
  - intros Hv. cbn [sub]. rewrite div_fin by exact Hv. cbn [mul has_value].
    field. exact Hv.
  - intros Hv. cbn [sub]. rewrite div_zero_zero; [reflexivity | ring | exact Hv].
Qed.

Lemma scaled_length (k : Q) (ys : list Q) : length (scaled k ys) = length ys.
Proof. apply length_map. Qed.

Lemma scaled_obs (k : Q) (ys : list Q) (i : nat) :
  (i < length ys)%nat -> obs (scaled k ys) i = k * obs ys i.
Proof.
  intros H. unfold obs, scaled.
  rewrite (nth_indep _ 0 (k * 0)) by (rewrite length_map; exact H).
  apply (map_nth (Qmult k)).
Qed.

Lemma scaled_sums (k : Q) (ys : list Q) :
  Sx (scaled k ys) == Sx ys /\ Sxx (scaled k ys) == Sxx ys
  /\ Sy (scaled k ys) == k * Sy ys /\ Sxy (scaled k ys) == k * Sxy ys.
Proof.
  unfold Sx, Sxx, Sy, Sxy. rewrite scaled_length.
  split; [reflexivity|]. split; [reflexivity|].
  assert (G : forall m, (m <= length ys)%nat ->
            bigsum m (obs (scaled k ys)) == k * bigsum m (obs ys)
            /\ bigsum m (fun i => qnat i * obs (scaled k ys) i)
               == k * bigsum m (fun i => qnat i * obs ys i)).
  { induction m as [|m IH]; intros Hm; simpl.
    - split; ring.
    - destruct IH as [IH1 IH2]; [lia|].
      rewrite IH1, IH2, scaled_obs by lia. split; ring. }
  apply G. lia.
Qed.

(** In exact arithmetic the fit follows the unit of the rates: for the
    series with every rate times [k], slope and intercept are [k] times
    those of the series. *)
Theorem linearRegression_scaled (k : Q) (ys : list Q) :
  (2 <= length ys)%nat ->
  exists s b s' b',
    linearRegression (series ys) = {| slope := Fin s; intercept := Fin b |}
    /\ linearRegression (series (scaled k ys))
       = {| slope := Fin s'; intercept := Fin b' |}
    /\ s' == k * s /\ b' == k * b.
Proof.
  intros Hn.
  assert (Hl : (2 <= length (scaled k ys))%nat) by now rewrite scaled_length.
  destruct (linearRegression_fit ys Hn) as [s [b [E [Es Eb]]]].
  destruct (linearRegression_fit _ Hl) as [s' [b' [E' [Es' Eb']]]].
  pose proof (ols_denominator_pos ys Hn) as Hd.
  pose proof (qnat_ge_2 _ Hn) as Hq.
  destruct (scaled_sums k ys) as [K1 [K2 [K3 K4]]].
  assert (Hs : s' == k * s).
  { rewrite Es', Es. unfold ols_slope, ols_denominator in *.
    rewrite scaled_length, K1, K2, K3, K4. field. lra. }
  exists s, b, s', b'. split; [exact E|]. split; [exact E'|].
  split; [exact Hs|].
  rewrite Eb', Eb. unfold ols_intercept. rewrite <- Es', <- Es, Hs.
  rewrite scaled_length, K1, K3. field. lra.
Qed.

Lemma linearRegression_scaled_witness :
  exists s b s' b',
    linearRegression (series [1; 2; 4])
    = {| slope := Fin s; intercept := Fin b |}
    /\ linearRegression (series (scaled 83.72 [1; 2; 4]))
       = {| slope := Fin s'; intercept := Fin b' |}
    /\ s' == 83.72 * s /\ b' == 83.72 * b.
Proof.
  apply (linearRegression_scaled 83.72 [1; 2; 4]). simpl. lia.
Defined.

(** In exact arithmetic the percent change does not depend on the unit
    of the rates: the series with every rate times a non-zero [k] has
    the percent change of the series. *)
Theorem analyzeTrend_percentChange_scaled (k : Q) (ys : list Q) :
  ys <> [] -> ~ k == 0 -> ~ obs ys 0 == 0 ->
  exists p,
    has_value (percentChange (analyzeTrend (series ys))) p
    /\ has_value (percentChange (analyzeTrend (series (scaled k ys)))) p.
Proof.
  intros Hne Hk Hf.
  assert (Hne' : scaled k ys <> []) by (destruct ys; [contradiction | discriminate]).
  assert (H0 : (0 < length ys)%nat) by (destruct ys; [contradiction | simpl; lia]).
  exists ((obs ys (length ys - 1) - obs ys 0) / obs ys 0 * 100).
  unfold analyzeTrend. cbn [percentChange].
  rewrite !at_first_series, !at_last_series by assumption.
  rewrite scaled_length, !scaled_obs by lia.
  cbn [sub]. rewrite !div_fin; [| | exact Hf].
  - cbn [mul has_value]. split; [reflexivity|]. field. split; assumption.
  - intros Hz. apply Qmult_integral in Hz. destruct Hz; contradiction.
Qed.

Lemma analyzeTrend_percentChange_scaled_witness :
  exists p,
    has_value (percentChange (analyzeTrend (series [2; 0; 2; 1.9]))) p
    /\ has_value
         (percentChange (analyzeTrend (series (scaled 83.72 [2; 0; 2; 1.9])))) p.
Proof.
  apply (analyzeTrend_percentChange_scaled 83.72 [2; 0; 2; 1.9]);
    discriminate.
Defined.

(* ================================================================== *)
(** ** More on the statistics summarizer                              *)
(* ================================================================== *)

(** In exact arithmetic the volatility of positive rates is zero
    exactly when all the rates are equal. *)
Theorem volatility_zero_iff_constant (ys : list Q) :
  ys <> [] -> (forall y, In y ys -> 0 < y) ->
  exists v,
    volatility (calculateStatistics (series ys)) = Fin v
    /\ (v == 0 <-> forall y z, In y ys -> In z ys -> y == z).
Proof.
  intros H Hpos.
  destruct (calculateStatistics_fin ys H)
    as [mn [mx [av [Imn [Lmn [Imx [Lmx [Eav [Ec _]]]]]]]]].
  destruct (mean_between ys mn mx H Lmn Lmx) as [B1 B2].
  assert (0 < mn) by now apply Hpos.
  rewrite Ec. cbn [volatility sub]. rewrite div_fin by lra. cbn [mul].
  eexists. split; [reflexivity|]. split.
  - intros Hv y z Hy Hz.
    assert (E : mx - mn == ((mx - mn) / av * 100) * (av / 100))
      by (field; lra).
    rewrite Hv in E.
    pose proof (Lmn y Hy). pose proof (Lmx y Hy).
    pose proof (Lmn z Hz). pose proof (Lmx z Hz). lra.
  - intros Hall. rewrite (Hall mx mn Imx Imn). field. lra.
Qed.

Lemma volatility_zero_iff_constant_witness :
  exists v,
    volatility (calculateStatistics (series [0.92; 0.92])) = Fin v
    /\ (v == 0 <-> forall y z, In y [0.92; 0.92] -> In z [0.92; 0.92] -> y == z).
Proof.
  apply (volatility_zero_iff_constant [0.92; 0.92]); [discriminate|].
  intros y [<- | [<- | []]]; reflexivity.
Defined.

(** In exact arithmetic a series of mean zero is not refused: its
    volatility is +Infinity, or NaN when every rate is zero, from the
    client function and from the server alike. *)
Theorem volatility_of_zero_mean (ys : list Q) :
  ys <> [] -> Sy ys == 0 ->
  ((forall y, In y ys -> y == 0) ->
   volatility (calculateStatistics (series ys)) = NaN
   /\ volatility (historicalStatistics (series ys)) = NaN)
  /\ ((exists y, In y ys /\ ~ y == 0) ->
      volatility (calculateStatistics (series ys)) = PosInf
      /\ volatility (historicalStatistics (series ys)) = PosInf).
Proof.
  intros H Hz.
  destruct (calculateStatistics_fin ys H)
    as [mn [mx [av [Imn [Lmn [Imx [Lmx [Eav [Ec Es]]]]]]]]].
  pose proof (qnat_pos ys H) as Hq.
  assert (Hav : av == 0).
  { rewrite Eav. unfold mean_y. rewrite Hz. unfold Qdiv. ring. }
  destruct (mean_between ys mn mx H Lmn Lmx) as [B1 B2].
  rewrite <- Eav, Hav in B1, B2.
  rewrite Ec, Es. cbn [volatility sub]. split.
  - intros Hall.
    rewrite div_zero_zero;
      [split; reflexivity | rewrite (Hall mx Imx), (Hall mn Imn); ring | exact Hav].
  - intros [y [Hy Hne]].
    assert (Hd : 0 < mx - mn).
    { pose proof (Lmn y Hy). pose proof (Lmx y Hy).
      destruct (Qlt_le_dec 0 (mx - mn)); [assumption|].
      exfalso. apply Hne. lra. }
    unfold div. apply Qeq_alt in Hav. rewrite Hav.
    apply Qgt_alt in Hd. rewrite Hd. split; reflexivity.
Qed.

Lemma volatility_of_zero_mean_witness :
  ((forall y, In y [-1; 1] -> y == 0) ->
   volatility (calculateStatistics (series [-1; 1])) = NaN
   /\ volatility (historicalStatistics (series [-1; 1])) = NaN)
  /\ ((exists y, In y [-1; 1] /\ ~ y == 0) ->
      volatility (calculateStatistics (series [-1; 1])) = PosInf
      /\ volatility (historicalStatistics (series [-1; 1])) = PosInf).
Proof.
  apply (volatility_of_zero_mean [-1; 1]); [discriminate | reflexivity].
Defined.

(* ================================================================== *)
(** ** Maps and sorting                                               *)
(* ================================================================== *)

Lemma Map_set_fresh {V : Type} (key : Z) (value : V) (m : JsMap V) :
  ~ In key (map fst m) -> Map_set key value m = m ++ [(key, value)].
Proof.
  induction m as [|[k v] rest IH]; intros H; simpl.
  - reflexivity.
  - destruct (Z.eqb_spec k key) as [-> | D].
    + exfalso. apply H. now left.
    + rewrite IH; [reflexivity|]. intros Hin. apply H. now right.
Qed.

Lemma Map_get_app {V : Type} (key : Z) (m m' : JsMap V) :
  ~ In key (map fst m) -> Map_get key (m ++ m') = Map_get key m'.
Proof.
  induction m as [|[k v] rest IH]; intros H; simpl.
  - reflexivity.
  - destruct (Z.eqb_spec k key) as [-> | D].
    + exfalso. apply H. now left.
    + apply IH. intros Hin. apply H. now right.
Qed.

Lemma Map_get_app_other {V : Type} (key k : Z) (v : V) (m : JsMap V) :
  key <> k -> Map_get key (m ++ [(k, v)]) = Map_get key m.
Proof.
  intros D. induction m as [|[k' v'] rest IH]; simpl.
  - destruct (Z.eqb_spec k key); [congruence | reflexivity].
  - destruct (Z.eqb_spec k' key); [reflexivity | exact IH].
Qed.

Lemma consecutive_S (n : nat) :
  consecutive (S n) = consecutive n ++ [Z.of_nat (S n)].
Proof. unfold consecutive. rewrite seq_S, map_app. reflexivity. Qed.

Lemma consecutive_bound (n : nat) (k : Z) :
  In k (consecutive n) -> (1 <= k <= Z.of_nat n)%Z.
Proof.
  unfold consecutive. rewrite in_map_iff. intros [i [<- Hi]].
  apply in_seq in Hi. lia.
Qed.

(** Saving under the counter of a map in order appends the record and
    leaves the map in order. *)
Lemma in_order_set {V : Type} (id : V -> Z) (m : JsMap V) (next : Z) (v : V) :
  in_order id m next -> id v = next ->
  Map_set next v m = m ++ [(next, v)]
  /\ in_order id (Map_set next v m) (next + 1).
Proof.
  intros [K [N F]] Hid.
  assert (Hfresh : ~ In next (map fst m)).
  { rewrite K. intros Hin. apply consecutive_bound in Hin. lia. }
  rewrite (Map_set_fresh next v m Hfresh). split; [reflexivity|].
  unfold in_order. rewrite length_app, map_app, K. simpl.
  rewrite Nat.add_1_r, consecutive_S, N. repeat split.
  - lia.
  - apply Forall_app. split; [exact F|]. constructor; [|constructor].
    simpl. rewrite Hid. exact N.
Qed.

Lemma Forall_perm {A : Type} (P : A -> Prop) (l l' : list A) :
  Permutation l l' -> Forall P l -> Forall P l'.
Proof.
  intros Hp Hf. rewrite Forall_forall in *. intros x Hx. apply Hf.
  eapply Permutation_in; [symmetry; exact Hp | exact Hx].
Qed.

Section SortByKey.

Variable A : Type.
Variable compare : A -> A -> Z.
Variable key : A -> Z.

(** The comparator orders by [key], ascending. *)
Hypothesis compare_key :
  forall a b, (compare a b <=? 0)%Z = (key a <=? key b)%Z.

Lemma sort_insert_perm (x : A) (l : list A) :
  Permutation (sort_insert compare x l) (x :: l).
Proof.
  induction l as [|y rest IH]; simpl.
  - reflexivity.
  - destruct (compare x y <=? 0)%Z; [reflexivity|].
    rewrite IH. apply perm_swap.
Qed.

Lemma Array_sort_perm (l : list A) : Permutation (Array_sort compare l) l.
Proof.
  induction l as [|x rest IH]; simpl.
  - reflexivity.
  - rewrite sort_insert_perm. now constructor.
Qed.

Lemma sort_insert_sorted (x : A) (l : list A) :
  StronglySorted (fun a b => (key a <= key b)%Z) l ->
  StronglySorted (fun a b => (key a <= key b)%Z) (sort_insert compare x l).
Proof.
  induction l as [|y rest IH]; intros H; simpl.
  - constructor; constructor.
  - inversion H as [|? ? Hs Hf]; subst.
    rewrite compare_key. destruct (Z.leb_spec (key x) (key y)) as [L | L].
    + constructor; [exact H|]. constructor; [exact L|].
      eapply Forall_impl; [|exact Hf]. simpl. intros. lia.
    + constructor; [now apply IH|].
      apply (Forall_perm _ (x :: rest)); [symmetry; apply sort_insert_perm|].
      constructor; [lia | exact Hf].
Qed.

Lemma Array_sort_sorted (l : list A) :
  StronglySorted (fun a b => (key a <= key b)%Z) (Array_sort compare l).
Proof.
  induction l as [|x rest IH]; simpl.
  - constructor.
  - now apply sort_insert_sorted.
Qed.

(** The sort is stable: the elements of one key keep their order. *)
Lemma sort_insert_stable (k : Z) (x : A) (l : list A) :
  filter (fun a => (key a =? k)%Z) (sort_insert compare x l)
  = filter (fun a => (key a =? k)%Z) (x :: l).
Proof.
  induction l as [|y rest IH]; simpl.
  - reflexivity.
  - rewrite compare_key. destruct (Z.leb_spec (key x) (key y)) as [L | L].
    + reflexivity.
    + simpl. rewrite IH. simpl.
      destruct (Z.eqb_spec (key x) k) as [Ex | Ex];
        destruct (Z.eqb_spec (key y) k) as [Ey | Ey];
        try reflexivity. lia.
Qed.

Lemma Array_sort_stable (k : Z) (l : list A) :
  filter (fun a => (key a =? k)%Z) (Array_sort compare l)
  = filter (fun a => (key a =? k)%Z) l.
Proof.
  induction l as [|x rest IH]; simpl.
  - reflexivity.
  - rewrite sort_insert_stable. simpl. now rewrite IH.
Qed.

(** The head of the sorted list is the first element of the least key
    in the list as it was. *)
Lemma Array_sort_head (l : list A) (first : A) (others : list A) :
  Array_sort compare l = first :: others ->
  exists before after,
    l = before ++ first :: after
    /\ Forall (fun a => (key first < key a)%Z) before
    /\ Forall (fun a => (key first <= key a)%Z) after.
Proof.
  intros E.
  pose proof (Array_sort_sorted l) as S. rewrite E in S.
  inversion S as [|? ? _ Hle]; subst.
  assert (Hall : Forall (fun a => (key first <= key a)%Z) l).
  { apply (Forall_perm _ (first :: others));
      [rewrite <- E; apply Array_sort_perm|].
    constructor; [lia | exact Hle]. }
  pose proof (Array_sort_stable (key first) l) as St. rewrite E in St.
  simpl in St. rewrite Z.eqb_refl in St.
  clear E S Hle. revert St Hall.
  generalize (filter (fun a => (key a =? key first)%Z) others) as tail.
  induction l as [|y rest IH]; intros tail St Hall; simpl in St.
  - discriminate.
  - inversion Hall as [|? ? Hy Hrest]; subst.
    destruct (Z.eqb_spec (key y) (key first)) as [Ey | Ey].
    + injection St as -> _. exists [], rest. repeat split; [constructor | exact Hrest].
    + destruct (IH tail St Hrest) as [before [after [-> [Hb Ha]]]].
      exists (y :: before), after. repeat split; [|exact Ha].
      constructor; [lia | exact Hb].
Qed.

End SortByKey.

(* ================================================================== *)
(** ** The store                                                      *)
(* ================================================================== *)

Lemma in_order_empty {V : Type} (id : V -> Z) : in_order id [] 1.
Proof. repeat split. constructor. Qed.

Lemma perform_last (calls : list MemStorage.call) (c : MemStorage.call) :
  fold_left MemStorage.perform (calls ++ [c]) MemStorage.constructor
  = MemStorage.perform
      (fold_left MemStorage.perform calls MemStorage.constructor) c.
Proof. now rewrite fold_left_app. Qed.

(** Every map of a store that calls have built is in order, and the
    rates it holds are the rates saved, in the order of the calls. *)
Lemma run_in_order (calls : list MemStorage.call) :
  let this := fold_left MemStorage.perform calls MemStorage.constructor in
  in_order User.id (MemStorage.users this) (MemStorage.userId this)
  /\ in_order Conversion.id (MemStorage.conversionRecords this)
              (MemStorage.conversionId this)
  /\ in_order ExchangeRate.id (MemStorage.exchangeRateRecords this)
              (MemStorage.exchangeRateId this)
  /\ map asInserted (Map_values (MemStorage.exchangeRateRecords this))
     = savedRates calls.
Proof.
  induction calls as [|c calls IH] using rev_ind.
  - simpl. split; [apply in_order_empty|]. split; [apply in_order_empty|].
    split; [apply in_order_empty | reflexivity].
  - cbv zeta in *. rewrite perform_last.
    destruct IH as [U [C [X L]]].
    set (this := fold_left MemStorage.perform calls MemStorage.constructor) in *.
    unfold savedRates. rewrite flat_map_app. fold (savedRates calls).
    destruct c as [u | c now | r]; simpl.
    + rewrite app_nil_r.
      split; [apply in_order_set; [exact U | reflexivity]|].
      split; [exact C|]. split; [exact X | exact L].
    + rewrite app_nil_r. split; [exact U|].
      split; [apply in_order_set; [exact C | reflexivity]|].
      split; [exact X | exact L].
    + split; [exact U|]. split; [exact C|].
      destruct (in_order_set ExchangeRate.id _ _
                  {| ExchangeRate.id := MemStorage.exchangeRateId this;
                     ExchangeRate.baseCurrency := InsertExchangeRate.baseCurrency r;
                     ExchangeRate.targetCurrency := InsertExchangeRate.targetCurrency r;
                     ExchangeRate.rate := InsertExchangeRate.rate r;
                     ExchangeRate.date := InsertExchangeRate.date r |}
                  X eq_refl) as [E O].
      split; [exact O|]. rewrite E. unfold Map_values in *.
      rewrite !map_app, L. simpl. destruct r; reflexivity.
Qed.

Lemma reachable_in_order (this : MemStorage.t) :
  MemStorage.reachable this ->
  in_order User.id (MemStorage.users this) (MemStorage.userId this)
  /\ in_order Conversion.id (MemStorage.conversionRecords this)
              (MemStorage.conversionId this)
  /\ in_order ExchangeRate.id (MemStorage.exchangeRateRecords this)
              (MemStorage.exchangeRateId this).
Proof.
  intros [calls ->]. destruct (run_in_order calls) as [U [C [X _]]].
  auto.
Qed.

Lemma in_order_ids {V : Type} (id : V -> Z) (m : JsMap V) (next : Z) :
  in_order id m next -> map id (Map_values m) = consecutive (length m).
Proof.
  intros [K [_ F]]. rewrite <- K. clear K. unfold Map_values. rewrite map_map.
  induction F as [|kv rest Hkv _ IH]; simpl; [reflexivity|].
  now rewrite Hkv, IH.
Qed.

(** The store never loses or overwrites a rate: after any calls it holds
    exactly the rates that were saved, in the order they were saved,
    under the identifiers 1, 2, 3, .. *)
Theorem store_keeps_every_rate (calls : list MemStorage.call) :
  let this := fold_left MemStorage.perform calls MemStorage.constructor in
  let stored := Map_values (MemStorage.exchangeRateRecords this) in
  map asInserted stored = savedRates calls
  /\ map ExchangeRate.id stored = consecutive (length (savedRates calls)).
Proof.
  intros this stored. destruct (run_in_order calls) as [_ [_ [X L]]].
  fold this in X, L. fold stored in L. split; [exact L|].
  unfold stored. rewrite (in_order_ids _ _ _ X), <- L.
  unfold stored, Map_values. now rewrite !length_map.
Qed.

(** A user just created is found under the identifier it was given,
    which no user had before, and every other identifier answers as
    before. *)
Theorem createUser_then_getUser (this : MemStorage.t) (insertUser : InsertUser.t) :
  MemStorage.reachable this ->
  let user := fst (MemStorage.createUser insertUser this) in
  let after := snd (MemStorage.createUser insertUser this) in
  User.username user = InsertUser.username insertUser
  /\ User.password user = InsertUser.password insertUser
  /\ MemStorage.getUser (User.id user) this = None
  /\ MemStorage.getUser (User.id user) after = Some user
  /\ forall id, id <> User.id user ->
       MemStorage.getUser id after = MemStorage.getUser id this.
Proof.
  intros R user after.
  destruct (reachable_in_order this R) as [[K [N F]] _].
  assert (Hfresh : ~ In (MemStorage.userId this) (map fst (MemStorage.users this))).
  { rewrite K. intros Hin. apply consecutive_bound in Hin. lia. }
  unfold after, user, MemStorage.getUser, MemStorage.createUser. simpl.
  rewrite (Map_set_fresh _ _ _ Hfresh).
  split; [reflexivity|]. split; [reflexivity|]. split; [|split].
  - rewrite <- (app_nil_r (MemStorage.users this)) at 1.
    now rewrite Map_get_app.
  - rewrite Map_get_app by exact Hfresh. simpl. now rewrite Z.eqb_refl.
  - intros id D. now apply Map_get_app_other.
Qed.

Lemma createUser_then_getUser_witness :
  let this := MemStorage.constructor in
  let insertUser :=
    {| InsertUser.username := "ada"; InsertUser.password := "x" |}%string in
  let user := fst (MemStorage.createUser insertUser this) in
  let after := snd (MemStorage.createUser insertUser this) in
  User.username user = InsertUser.username insertUser
  /\ User.password user = InsertUser.password insertUser
  /\ MemStorage.getUser (User.id user) this = None
  /\ MemStorage.getUser (User.id user) after = Some user
  /\ forall id, id <> User.id user ->
       MemStorage.getUser id after = MemStorage.getUser id this.
Proof.
  apply (createUser_then_getUser MemStorage.constructor
           {| InsertUser.username := "ada"; InsertUser.password := "x" |}%string).
  exists []. reflexivity.
Defined.

Lemma find_app_first {A : Type} (p : A -> bool) (l l' : list A) :
  find p (l ++ l')
  = match find p l with Some x => Some x | None => find p l' end.
Proof.
  induction l as [|x rest IH]; simpl; [reflexivity|].
  destruct (p x); [reflexivity | exact IH].
Qed.

(** [createUser] accepts a user name that is taken; the user found by
    name stays the one created first. *)
Theorem getUserByUsername_after_createUser
        (this : MemStorage.t) (insertUser : InsertUser.t)
        (username : String.string) :
  MemStorage.reachable this ->
  MemStorage.getUserByUsername username
    (snd (MemStorage.createUser insertUser this))
  = match MemStorage.getUserByUsername username this with
    | Some earlier => Some earlier
    | None =>
        if String.eqb (InsertUser.username insertUser) username
        then Some (fst (MemStorage.createUser insertUser this))
        else None
    end.
Proof.
  intros R. destruct (reachable_in_order this R) as [[K [N F]] _].
  assert (Hfresh : ~ In (MemStorage.userId this) (map fst (MemStorage.users this))).
  { rewrite K. intros Hin. apply consecutive_bound in Hin. lia. }
  unfold MemStorage.getUserByUsername, MemStorage.createUser. simpl.
  rewrite (Map_set_fresh _ _ _ Hfresh). unfold Map_values.
  rewrite map_app, find_app_first. reflexivity.
Qed.

Lemma getUserByUsername_after_createUser_witness :
  let first := {| InsertUser.username := "ada"; InsertUser.password := "x" |}%string in
  let second := {| InsertUser.username := "ada"; InsertUser.password := "y" |}%string in
  let this := snd (MemStorage.createUser first MemStorage.constructor) in
  MemStorage.getUserByUsername "ada"%string
    (snd (MemStorage.createUser second this))
  = match MemStorage.getUserByUsername "ada"%string this with
    | Some earlier => Some earlier
    | None =>
        if String.eqb (InsertUser.username second) "ada"%string
        then Some (fst (MemStorage.createUser second this))
        else None
    end.
Proof.
  apply (getUserByUsername_after_createUser
           (snd (MemStorage.createUser
                   {| InsertUser.username := "ada"; InsertUser.password := "x" |}%string
                   MemStorage.constructor))
           {| InsertUser.username := "ada"; InsertUser.password := "y" |}%string
           "ada"%string).
  exists [MemStorage.CreateUser
            {| InsertUser.username := "ada"; InsertUser.password := "x" |}%string].
  reflexivity.
Defined.

Lemma ascending_key (a b : Z) : (a - b <=? 0)%Z = (a <=? b)%Z.
Proof.
  destruct (Z.leb_spec (a - b) 0), (Z.leb_spec a b); try reflexivity; lia.
Qed.

Lemma descending_key (a b : Z) : (b - a <=? 0)%Z = (- a <=? - b)%Z.
Proof.
  destruct (Z.leb_spec (b - a) 0), (Z.leb_spec (- a) (- b));
    try reflexivity; lia.
Qed.

(** For up to [maxDays] days either way, [getExchangeRates] returns the
    stored rates of the pair dated at or after the target date, each
    once, ordered by date, oldest first; that holds for every store and
    every calendar. *)
Theorem getExchangeRates_sorted_selection
        (daysBefore : Z -> Z -> Z) (now : Z)
        (baseCurrency targetCurrency : String.string) (days : Z)
        (this : MemStorage.t) :
  (- maxDays <= days <= maxDays)%Z ->
  let result :=
    MemStorage.getExchangeRates daysBefore now baseCurrency targetCurrency
                                days this in
  StronglySorted
    (fun a b => (ExchangeRate.date a <= ExchangeRate.date b)%Z) result
  /\ Permutation result
       (filter (fun rate =>
                  MemStorage.ofPair baseCurrency targetCurrency rate
                  && (daysBefore now days <=? ExchangeRate.date rate)%Z)
               (Map_values (MemStorage.exchangeRateRecords this)))
  /\ forall rate,
       In rate result <->
       In rate (Map_values (MemStorage.exchangeRateRecords this))
       /\ ExchangeRate.baseCurrency rate = baseCurrency
       /\ ExchangeRate.targetCurrency rate = targetCurrency
       /\ (daysBefore now days <= ExchangeRate.date rate)%Z.
Proof.
  intros _ result. unfold result, MemStorage.getExchangeRates. cbv zeta.
  set (selected := filter _ _).
  assert (P : Permutation
                (Array_sort (fun a b => (ExchangeRate.date a - ExchangeRate.date b)%Z)
                            selected) selected)
    by apply Array_sort_perm.
  split; [|split].
  - apply (Array_sort_sorted _ _ ExchangeRate.date).
    intros a b. apply ascending_key.
  - exact P.
  - intros rate. split.
    + intros Hin. apply (Permutation_in _ P) in Hin.
      unfold selected in Hin. apply filter_In in Hin.
      destruct Hin as [Hin Hp]. apply andb_prop in Hp. destruct Hp as [Hp Hd].
      unfold MemStorage.ofPair in Hp. apply andb_prop in Hp.
      destruct Hp as [Hb Ht].
      apply String.eqb_eq in Hb. apply String.eqb_eq in Ht.
      apply Z.leb_le in Hd. auto.
    + intros [Hin [Hb [Ht Hd]]].
      apply (Permutation_in _ (Permutation_sym P)).
      unfold selected. apply filter_In. split; [exact Hin|].
      unfold MemStorage.ofPair. rewrite Hb, Ht, !String.eqb_refl. simpl.
      now apply Z.leb_le.
Qed.

Lemma getExchangeRates_sorted_selection_witness :
  let this :=
    snd (rateHandler "USD"%string "EUR"%string 2000
           (snd (rateHandler "USD"%string "INR"%string 1000
                             MemStorage.constructor))) in
  let result :=
    MemStorage.getExchangeRates utcDaysBefore 3000 "USD"%string "EUR"%string
                                7 this in
  StronglySorted
    (fun a b => (ExchangeRate.date a <= ExchangeRate.date b)%Z) result
  /\ Permutation result
       (filter (fun rate =>
                  MemStorage.ofPair "USD"%string "EUR"%string rate
                  && (utcDaysBefore 3000 7 <=? ExchangeRate.date rate)%Z)
               (Map_values (MemStorage.exchangeRateRecords this)))
  /\ forall rate,
       In rate result <->
       In rate (Map_values (MemStorage.exchangeRateRecords this))
       /\ ExchangeRate.baseCurrency rate = "USD"%string
       /\ ExchangeRate.targetCurrency rate = "EUR"%string
       /\ (utcDaysBefore 3000 7 <= ExchangeRate.date rate)%Z.
Proof.
  apply (getExchangeRates_sorted_selection utcDaysBefore 3000
           "USD"%string "EUR"%string 7
           (snd (rateHandler "USD"%string "EUR"%string 2000
                   (snd (rateHandler "USD"%string "INR"%string 1000
                                     MemStorage.constructor))))).
  split; discriminate.
Defined.

(** [getLatestExchangeRate] answers [undefined] exactly when the store
    holds no rate of the pair; otherwise it returns the rate of the pair
    with the latest date, and of several with that date the one saved
    first. *)
Theorem getLatestExchangeRate_is_latest
        (baseCurrency targetCurrency : String.string) (this : MemStorage.t) :
  let ofPair :=
    filter (MemStorage.ofPair baseCurrency targetCurrency)
           (Map_values (MemStorage.exchangeRateRecords this)) in
  match MemStorage.getLatestExchangeRate baseCurrency targetCurrency this with
  | None => ofPair = []
  | Some latest =>
      exists before after,
        ofPair = before ++ latest :: after
        /\ Forall (fun r => (ExchangeRate.date r < ExchangeRate.date latest)%Z)
                  before
        /\ Forall (fun r => (ExchangeRate.date r <= ExchangeRate.date latest)%Z)
                  after
  end.
Proof.
  intros ofPair. unfold MemStorage.getLatestExchangeRate. fold ofPair.
  destruct (Array_sort _ ofPair) as [|first others] eqn:E.
  - apply Permutation_nil. rewrite <- E. apply Array_sort_perm.
  - destruct (Array_sort_head _ _ (fun r => (- ExchangeRate.date r)%Z)
                (fun a b => descending_key _ _) ofPair first others E)
      as [before [after [El [Hb Ha]]]].
    exists before, after. split; [exact El|]. split.
    + eapply Forall_impl; [|exact Hb]. simpl. intros. lia.
    + eapply Forall_impl; [|exact Ha]. simpl. intros. lia.
Qed.

Lemma slice_negative {A : Type} (k : Z) (l : list A) :
  (k < 0)%Z -> Array_slice_to k l = firstn (length l - Z.to_nat (- k)) l.
Proof.
  intros H. unfold Array_slice_to.
  destruct (Z.ltb_spec k 0) as [_ | C]; [|lia].
  f_equal. lia.
Qed.

(** [getConversions] lists every stored conversion once, newest first.
    A positive limit keeps that many of the newest; no limit, a limit
    that is not a number and the limit 0 give them all; a negative limit
    drops that many of the oldest. *)
Theorem getConversions_limit (this : MemStorage.t) :
  let all := MemStorage.getConversions None this in
  StronglySorted
    (fun a b => (Conversion.createdAt b <= Conversion.createdAt a)%Z) all
  /\ Permutation all (Map_values (MemStorage.conversionRecords this))
  /\ MemStorage.getConversions (Some 0%Z) this = all
  /\ (forall k, (0 < k)%Z ->
        MemStorage.getConversions (Some k) this = firstn (Z.to_nat k) all)
  /\ (forall k, (k < 0)%Z ->
        MemStorage.getConversions (Some k) this
        = firstn (length all - Z.to_nat (- k)) all).
Proof.
  intros all. unfold all, MemStorage.getConversions.
  set (compare := fun a b => (Conversion.createdAt b - Conversion.createdAt a)%Z).
  split; [|split; [|split; [|split]]].
  - pose proof (Array_sort_sorted _ compare
                  (fun c => (- Conversion.createdAt c)%Z)
                  (fun a b => descending_key _ _)
                  (Map_values (MemStorage.conversionRecords this))) as S.
    induction S as [|c rest _ IH Hc]; constructor; [exact IH|].
    eapply Forall_impl; [|exact Hc]. simpl. intros. lia.
  - apply Array_sort_perm.
  - reflexivity.
  - intros k Hk. destruct k; try lia. unfold Array_slice_to.
    now destruct (Z.ltb_spec (Z.pos p) 0); [lia|].
  - intros k Hk. destruct k; try lia. now apply slice_negative.
Qed.

(* ================================================================== *)
(** ** The handlers with hardcoded rates                              *)
(* ================================================================== *)

Ltac split_codes :=
  repeat (simpl;
          match goal with
          | |- context [String.eqb ?x ?y] => destruct (String.eqb x y)
          end).

(** Both tables give every pair of codes a positive rate. *)
Lemma tableRate_positive (table : list (String.string * list (String.string * Q)))
      (baseCurrency targetCurrency : String.string) :
  table = exchangeRates \/ table = baseRates ->
  exists r, tableRate table baseCurrency targetCurrency = Fin r
            /\ 0 < r /\ (baseCurrency = targetCurrency -> r == 1).
Proof.
  intros [-> | ->]; unfold tableRate;
    (destruct (String.eqb_spec baseCurrency targetCurrency) as [E | D];
     [ exists 1.0; split; [reflexivity | split; [reflexivity | reflexivity]]
     | unfold exchangeRates, baseRates; split_codes;
       (eexists; split; [reflexivity | split; [reflexivity | intros; contradiction]]) ]).
Qed.

(** [/api/rate] answers every pair of codes, known or not, with a
    positive finite rate, and with 1 for a currency against itself. *)
Theorem rateHandler_rate_positive
        (baseCurrency targetCurrency : String.string) (now : Z)
        (storage : MemStorage.t) :
  exists r,
    RateResponse.rate (fst (rateHandler baseCurrency targetCurrency now storage))
    = Fin r
    /\ 0 < r /\ (baseCurrency = targetCurrency -> r == 1).
Proof.
  unfold rateHandler. simpl.
  apply tableRate_positive. now left.
Qed.

Lemma ofPair_refl (baseCurrency targetCurrency : String.string)
      (r : ExchangeRate.t) :
  ExchangeRate.baseCurrency r = baseCurrency ->
  ExchangeRate.targetCurrency r = targetCurrency ->
  MemStorage.ofPair baseCurrency targetCurrency r = true.
Proof.
  intros <- <-. unfold MemStorage.ofPair. now rewrite !String.eqb_refl.
Qed.

(** Saving a rate of a pair dated after every stored rate of the pair
    makes it the latest. *)
Lemma saveExchangeRate_latest (insertRate : InsertExchangeRate.t)
      (this : MemStorage.t) :
  MemStorage.reachable this ->
  (forall r, In r (Map_values (MemStorage.exchangeRateRecords this)) ->
             MemStorage.ofPair (InsertExchangeRate.baseCurrency insertRate)
                               (InsertExchangeRate.targetCurrency insertRate) r
             = true ->
             (ExchangeRate.date r < InsertExchangeRate.date insertRate)%Z) ->
  MemStorage.getLatestExchangeRate
    (InsertExchangeRate.baseCurrency insertRate)
    (InsertExchangeRate.targetCurrency insertRate)
    (snd (MemStorage.saveExchangeRate insertRate this))
  = Some (fst (MemStorage.saveExchangeRate insertRate this)).
Proof.
  intros R Hnew.
  destruct (reachable_in_order this R) as [_ [_ X]].
  set (b := InsertExchangeRate.baseCurrency insertRate) in *.
  set (t := InsertExchangeRate.targetCurrency insertRate) in *.
  unfold MemStorage.saveExchangeRate. cbn [fst snd].
  set (saved := {| ExchangeRate.id := MemStorage.exchangeRateId this;
                   ExchangeRate.baseCurrency := b;
                   ExchangeRate.targetCurrency := t;
                   ExchangeRate.rate := InsertExchangeRate.rate insertRate;
                   ExchangeRate.date := InsertExchangeRate.date insertRate |}).
  destruct (in_order_set ExchangeRate.id _ _ saved X eq_refl) as [E _].
  unfold MemStorage.getLatestExchangeRate. cbn [MemStorage.exchangeRateRecords].
  fold b; fold t; fold saved.
  rewrite E. unfold Map_values. rewrite map_app, filter_app.
  cbn [map snd filter].
  rewrite (ofPair_refl b t saved eq_refl eq_refl).
  set (F := filter (MemStorage.ofPair b t)
                   (map snd (MemStorage.exchangeRateRecords this))).
  assert (HF : Forall (fun r => (ExchangeRate.date r < ExchangeRate.date saved)%Z) F).
  { apply Forall_forall. intros r Hr. unfold F in Hr. apply filter_In in Hr.
    destruct Hr as [Hin Hp]. now apply Hnew. }
  destruct (Array_sort _ (F ++ [saved])) as [|first others] eqn:Es.
  - exfalso.
    pose proof (Array_sort_perm _
                  (fun a b0 => (ExchangeRate.date b0 - ExchangeRate.date a)%Z)
                  (F ++ [saved])) as P.
    rewrite Es in P. apply Permutation_nil in P.
    apply (app_cons_not_nil F [] saved). now symmetry.
  - destruct (Array_sort_head _ _ (fun r => (- ExchangeRate.date r)%Z)
                (fun x y => descending_key _ _) (F ++ [saved]) first others Es)
      as [before [after [El [_ Ha]]]].
    f_equal. destruct after as [|z after' _] using rev_ind.
    + apply app_inj_tail in El. now destruct El.
    + exfalso. rewrite app_comm_cons, app_assoc in El.
      apply app_inj_tail in El. destruct El as [EF Ez]. subst z.
      apply Forall_app in Ha. destruct Ha as [_ Ha].
      inversion Ha as [|? ? Hz _]; subst.
      assert (Hin : In first F) by (rewrite EF; apply in_elt).
      rewrite Forall_forall in HF. specialize (HF first Hin). lia.
Qed.

(** After [/api/rate] has answered, the latest stored rate of the pair
    is the rate of the answer, dated by the clock, provided the clock is
    ahead of the rates of the pair stored before. *)
Theorem rateHandler_then_latest
        (baseCurrency targetCurrency : String.string) (now : Z)
        (storage : MemStorage.t) :
  MemStorage.reachable storage ->
  (forall r, In r (Map_values (MemStorage.exchangeRateRecords storage)) ->
             MemStorage.ofPair baseCurrency targetCurrency r = true ->
             (ExchangeRate.date r < now)%Z) ->
  let response := fst (rateHandler baseCurrency targetCurrency now storage) in
  let storage1 := snd (rateHandler baseCurrency targetCurrency now storage) in
  exists latest,
    MemStorage.getLatestExchangeRate baseCurrency targetCurrency storage1
    = Some latest
    /\ ExchangeRate.rate latest = RateResponse.rate response
    /\ ExchangeRate.date latest = now
    /\ ExchangeRate.id latest = MemStorage.exchangeRateId storage.
Proof.
  intros R Hnew response storage1.
  pose proof (saveExchangeRate_latest
                {| InsertExchangeRate.baseCurrency := baseCurrency;
                   InsertExchangeRate.targetCurrency := targetCurrency;
                   InsertExchangeRate.rate :=
                     tableRate exchangeRates baseCurrency targetCurrency;
                   InsertExchangeRate.date := now |}
                storage R Hnew) as L.
  eexists. split; [exact L|]. repeat split.
Qed.

Lemma rateHandler_then_latest_witness :
  let response := fst (rateHandler "USD"%string "EUR"%string 1000 MemStorage.constructor) in
  let storage1 := snd (rateHandler "USD"%string "EUR"%string 1000 MemStorage.constructor) in
  exists latest,
    MemStorage.getLatestExchangeRate "USD"%string "EUR"%string storage1 = Some latest
    /\ ExchangeRate.rate latest = RateResponse.rate response
    /\ ExchangeRate.date latest = 1000%Z
    /\ ExchangeRate.id latest
       = MemStorage.exchangeRateId MemStorage.constructor.
Proof.
  apply (rateHandler_then_latest "USD"%string "EUR"%string 1000 MemStorage.constructor).
  - exists []. reflexivity.
  - intros r [].
Defined.

Lemma historyDates_S (daysBefore : Z -> Z -> Z) (today : Z) (n : nat) :
  historyDates daysBefore today (S n)
  = daysBefore today (Z.of_nat n) :: historyDates daysBefore today n.
Proof.
  unfold historyDates. rewrite seq_S, rev_app_distr. reflexivity.
Qed.

(** What the loop of [/api/historical] does in [i] rounds: it appends
    [i] dated rates within one percent of the base rate, saves each of
    them, and uses [i] random numbers. *)
Lemma simulateHistory_run (daysBefore : Z -> Z -> Z)
      (baseCurrency targetCurrency : String.string) (b : Q) (today : Z) :
  0 < b ->
  forall (i : nat) (acc : list (Z * number)) (g : rng) (storage : MemStorage.t),
    rng_ok g ->
    exists qs,
      length qs = i
      /\ Forall (fun q => 0.99 * b <= q /\ q <= 1.01 * b) qs
      /\ simulateHistory daysBefore baseCurrency targetCurrency (Fin b) today
                         i acc g storage
         = (acc ++ combine (historyDates daysBefore today i) (series qs),
            snd (fst (simulateHistory daysBefore baseCurrency targetCurrency
                                      (Fin b) today i acc g storage)),
            fold_left MemStorage.perform
                      (savesOf baseCurrency targetCurrency
                               (combine (historyDates daysBefore today i)
                                        (series qs)))
                      storage)
      /\ forall k,
           snd (fst (simulateHistory daysBefore baseCurrency targetCurrency
                                     (Fin b) today i acc g storage)) k
           = g (i + k)%nat.
Proof.
  intros Hb. induction i as [|i IH]; intros acc g storage Hg.
  - exists []. simpl. rewrite app_nil_r. repeat split. constructor.
  - set (q0 := b + (g 0%nat - 0.5) * 0.02 * b).
    set (date := daysBefore today (Z.of_nat i)).
    set (g1 := fun k => g (S k)).
    set (storage1 :=
           MemStorage.perform storage
             (MemStorage.SaveExchangeRate
                {| InsertExchangeRate.baseCurrency := baseCurrency;
                   InsertExchangeRate.targetCurrency := targetCurrency;
                   InsertExchangeRate.rate := Fin q0;
                   InsertExchangeRate.date := date |})).
    assert (Estep :
              simulateHistory daysBefore baseCurrency targetCurrency (Fin b)
                              today (S i) acc g storage
              = simulateHistory daysBefore baseCurrency targetCurrency (Fin b)
                                today i (acc ++ [(date, Fin q0)]) g1 storage1)
      by reflexivity.
    assert (Hg1 : rng_ok g1) by (intros k; apply Hg).
    destruct (IH (acc ++ [(date, Fin q0)]) g1 storage1 Hg1)
      as [qs [L [F [E S]]]].
    exists (q0 :: qs). rewrite Estep. split; [simpl; now rewrite L|].
    split; [|split].
    + constructor; [|exact F]. destruct (Hg 0%nat) as [G0 G1].
      unfold q0. set (t := (g 0%nat - 0.5) * 0.02).
      assert (- 0.01 <= t /\ t < 0.01) by (unfold t; split; lra).
      split; nra.
    + rewrite E at 1. rewrite historyDates_S. cbn [series map combine].
      rewrite <- app_assoc. reflexivity.
    + intros k. rewrite S. unfold g1. f_equal.
Qed.

(** Rounding a volatility of at most 200/99 to two decimals gives at
    most 2.02. *)
Lemma rounded_volatility_bound (v : Q) :
  0 <= v -> v <= 200 # 99 ->
  exists r, toFixed_parsed 2 (Fin v) = Fin r /\ 0 <= r /\ r <= 2.02.
Proof.
  intros H0 H1.
  assert (Hb : Qabs v < inject_Z (10 ^ 21)).
  { rewrite Qabs_pos by exact H0.
    apply (Qle_lt_trans _ (200 # 99)); [exact H1 | reflexivity]. }
  destruct (toFixed_parsed_hundredths v Hb) as [cents [E N]].
  exists (inject_Z cents / 100). split; [exact E|].
  apply Qabs_Qle_condition in N.
  unfold Qdiv in *. change (/ 100) with (1 # 100) in *.
  assert (Hlo : (-1 < cents)%Z).
  { rewrite Zlt_Qlt. change (inject_Z (-1)) with (-1). lra. }
  assert (Hhi : (cents < 203)%Z).
  { rewrite Zlt_Qlt. change (inject_Z 203) with 203. lra. }
  assert (0 <= inject_Z cents)
    by (change 0 with (inject_Z 0); rewrite <- Zle_Qle; lia).
  assert (inject_Z cents <= 202)
    by (change 202 with (inject_Z 202); rewrite <- Zle_Qle; lia).
  split; lra.
Qed.

(** [/api/historical] with hardcoded rates, asked for a positive number
    of days up to [maxDays]: it answers with that many rates, dated day
    by day up to today; in exact arithmetic every rate is within one
    percent of the base rate of the pair, average, minimum and maximum
    lie in the same band, and the volatility it reports is at most
    2.02. *)
Theorem historicalHandler_within_one_percent
        (daysBefore : Z -> Z -> Z)
        (baseCurrency targetCurrency : String.string)
        (parsedDays : option Z) (today : Z) (g : rng)
        (storage : MemStorage.t) :
  rng_ok g -> (0 < daysParameter parsedDays <= maxDays)%Z ->
  let response :=
    fst (fst (historicalHandler daysBefore baseCurrency targetCurrency
                                parsedDays today g storage)) in
  let n := Z.to_nat (daysParameter parsedDays) in
  exists b,
    tableRate baseRates baseCurrency targetCurrency = Fin b /\ 0 < b
    /\ map fst (HistoricalResponse.rates response)
       = historyDates daysBefore today n
    /\ (forall date rate,
          In (date, rate) (HistoricalResponse.rates response) ->
          exists q, rate = Fin q /\ 0.99 * b <= q /\ q <= 1.01 * b)
    /\ exists mn av mx vol,
         HistoricalResponse.statistics response
         = {| average := Fin av; min := Fin mn; max := Fin mx;
              volatility := Fin vol |}
         /\ 0.99 * b <= mn /\ mn <= av /\ av <= mx /\ mx <= 1.01 * b
         /\ 0 <= vol /\ vol <= 2.02.
Proof.
  intros Hg [Hd _] response n.
  destruct (tableRate_positive baseRates baseCurrency targetCurrency
              (or_intror eq_refl)) as [b [Eb [Hb _]]].
  exists b. split; [exact Eb|]. split; [exact Hb|].
  unfold response, historicalHandler. rewrite Eb. fold n.
  destruct (simulateHistory_run daysBefore baseCurrency targetCurrency b today
              Hb n [] g storage Hg) as [qs [L [F [E _]]]].
  rewrite E. cbn [fst snd HistoricalResponse.rates HistoricalResponse.statistics app].
  assert (Ld : length (historyDates daysBefore today n) = length (series qs)).
  { unfold historyDates. rewrite length_map, length_rev, length_seq.
    now rewrite series_length. }
  assert (E1 : map fst (combine (historyDates daysBefore today n) (series qs))
               = historyDates daysBefore today n).
  { revert Ld. generalize (historyDates daysBefore today n), (series qs).
    induction l as [|d l IHl]; intros [|y l0] Hl; simpl in *;
      try discriminate; [reflexivity|]. f_equal. apply IHl. lia. }
  assert (E2 : map snd (combine (historyDates daysBefore today n) (series qs))
               = series qs).
  { revert Ld. generalize (historyDates daysBefore today n), (series qs).
    induction l as [|d l IHl]; intros [|y l0] Hl; simpl in *;
      try discriminate; [reflexivity|]. f_equal. apply IHl. lia. }
  split; [exact E1|]. split.
  - intros date rate Hin.
    assert (Hr : In rate (series qs)) by (rewrite <- E2; apply (in_map snd _ _ Hin)).
    unfold series in Hr. apply in_map_iff in Hr. destruct Hr as [q [<- Hq]].
    exists q. split; [reflexivity|].
    rewrite Forall_forall in F. now apply F.
  - rewrite E2.
    assert (Hne : qs <> []) by (destruct qs; [simpl in L; lia | discriminate]).
    destruct (calculateStatistics_fin qs Hne)
      as [mn [mx [av [Imn [Lmn [Imx [Lmx [Eav [_ Es]]]]]]]]].
    destruct (mean_between qs mn mx Hne Lmn Lmx) as [B1 B2].
    rewrite <- Eav in B1, B2.
    rewrite Forall_forall in F.
    destruct (F mn Imn) as [Fmn _]. destruct (F mx Imx) as [_ Fmx].
    assert (Hav : 0 < av) by lra.
    assert (Hv0 : 0 <= (mx - mn) / av * 100).
    { assert (0 <= (mx - mn) / av) by (apply Qle_shift_div_l; lra). lra. }
    assert (Hv1 : (mx - mn) / av * 100 <= 200 # 99).
    { assert ((mx - mn) / av <= 2 # 99) by (apply Qle_shift_div_r; lra). lra. }
    destruct (rounded_volatility_bound _ Hv0 Hv1) as [vol [Ev [V0 V1]]].
    exists mn, av, mx, vol. rewrite Es. cbn [sub].
    rewrite div_fin by lra. cbn [mul]. rewrite Ev.
    split; [reflexivity|]. repeat split; assumption || lra.
Qed.

Lemma historicalHandler_within_one_percent_witness :
  let g : rng := fun _ => 0.5 in
  let response :=
    fst (fst (historicalHandler utcDaysBefore "USD"%string "EUR"%string (Some 7%Z) 0 g
                                MemStorage.constructor)) in
  let n := Z.to_nat (daysParameter (Some 7%Z)) in
  exists b,
    tableRate baseRates "USD"%string "EUR"%string = Fin b /\ 0 < b
    /\ map fst (HistoricalResponse.rates response)
       = historyDates utcDaysBefore 0 n
    /\ (forall date rate,
          In (date, rate) (HistoricalResponse.rates response) ->
          exists q, rate = Fin q /\ 0.99 * b <= q /\ q <= 1.01 * b)
    /\ exists mn av mx vol,
         HistoricalResponse.statistics response
         = {| average := Fin av; min := Fin mn; max := Fin mx;
              volatility := Fin vol |}
         /\ 0.99 * b <= mn /\ mn <= av /\ av <= mx /\ mx <= 1.01 * b
         /\ 0 <= vol /\ vol <= 2.02.
Proof.
  apply (historicalHandler_within_one_percent utcDaysBefore
           "USD"%string "EUR"%string (Some 7%Z) 0 (fun _ => 0.5)
           MemStorage.constructor).
  - intros k. split; [discriminate | reflexivity].
  - split; [reflexivity | discriminate].
Defined.

(** The loop of [/api/historical] saves every rate it appends, whatever
    the base rate. *)
Lemma simulateHistory_saves (daysBefore : Z -> Z -> Z)
      (baseCurrency targetCurrency : String.string) (baseRate : number)
      (today : Z) :
  forall (i : nat) (acc : list (Z * number)) (g : rng) (storage : MemStorage.t),
    exists new,
      fst (fst (simulateHistory daysBefore baseCurrency targetCurrency
                                baseRate today i acc g storage))
      = acc ++ new
      /\ snd (simulateHistory daysBefore baseCurrency targetCurrency
                              baseRate today i acc g storage)
         = fold_left MemStorage.perform
                     (savesOf baseCurrency targetCurrency new) storage.
Proof.
  induction i as [|i IH]; intros acc g storage.
  - exists []. simpl. now rewrite app_nil_r.
  - set (rate := (baseRate + (Fin (g 0%nat) - Fin 0.5) * Fin 0.02 * baseRate)%js).
    set (date := daysBefore today (Z.of_nat i)).
    destruct (IH (acc ++ [(date, rate)]) (fun k => g (S k))
                 (MemStorage.perform storage
                    (MemStorage.SaveExchangeRate
                       {| InsertExchangeRate.baseCurrency := baseCurrency;
                          InsertExchangeRate.targetCurrency := targetCurrency;
                          InsertExchangeRate.rate := rate;
                          InsertExchangeRate.date := date |})))
      as [new [E1 E2]].
    exists ((date, rate) :: new).
    change (simulateHistory daysBefore baseCurrency targetCurrency baseRate
                            today (S i) acc g storage)
      with (simulateHistory daysBefore baseCurrency targetCurrency baseRate
              today i (acc ++ [(date, rate)]) (fun k => g (S k))
              (MemStorage.perform storage
                 (MemStorage.SaveExchangeRate
                    {| InsertExchangeRate.baseCurrency := baseCurrency;
                       InsertExchangeRate.targetCurrency := targetCurrency;
                       InsertExchangeRate.rate := rate;
                       InsertExchangeRate.date := date |}))).
    rewrite E1, E2, <- app_assoc. split; reflexivity.
Qed.

(** Saving dated rates of a pair into a store in order appends them. *)
Lemma saves_append (baseCurrency targetCurrency : String.string)
      (new : list (Z * number)) :
  forall this : MemStorage.t,
    in_order ExchangeRate.id (MemStorage.exchangeRateRecords this)
             (MemStorage.exchangeRateId this) ->
    exists saved,
      Map_values (MemStorage.exchangeRateRecords
                    (fold_left MemStorage.perform
                               (savesOf baseCurrency targetCurrency new) this))
      = Map_values (MemStorage.exchangeRateRecords this) ++ saved
      /\ map (fun r => (ExchangeRate.date r, ExchangeRate.rate r)) saved = new
      /\ Forall (fun r => ExchangeRate.baseCurrency r = baseCurrency
                          /\ ExchangeRate.targetCurrency r = targetCurrency)
                saved.
Proof.
  induction new as [|[date rate] rest IH]; intros this X.
  - exists []. simpl. rewrite app_nil_r. repeat split. constructor.
  - set (record := {| ExchangeRate.id := MemStorage.exchangeRateId this;
                      ExchangeRate.baseCurrency := baseCurrency;
                      ExchangeRate.targetCurrency := targetCurrency;
                      ExchangeRate.rate := rate;
                      ExchangeRate.date := date |}).
    destruct (in_order_set ExchangeRate.id _ _ record X eq_refl) as [E O].
    set (this1 := MemStorage.perform this
                    (MemStorage.SaveExchangeRate
                       {| InsertExchangeRate.baseCurrency := baseCurrency;
                          InsertExchangeRate.targetCurrency := targetCurrency;
                          InsertExchangeRate.rate := rate;
                          InsertExchangeRate.date := date |})).
    destruct (IH this1 O) as [saved [E1 [E2 F]]].
    exists (record :: saved).
    change (fold_left MemStorage.perform
              (savesOf baseCurrency targetCurrency ((date, rate) :: rest)) this)
      with (fold_left MemStorage.perform
              (savesOf baseCurrency targetCurrency rest) this1).
    rewrite E1.
    change (MemStorage.exchangeRateRecords this1)
      with (Map_set (MemStorage.exchangeRateId this) record
                    (MemStorage.exchangeRateRecords this)).
    rewrite E. unfold Map_values. rewrite map_app, <- app_assoc.
    split; [reflexivity|]. split; [simpl; now rewrite E2|].
    constructor; [split; reflexivity | exact F].
Qed.

Lemma reachable_after (this : MemStorage.t) (calls : list MemStorage.call) :
  MemStorage.reachable this ->
  MemStorage.reachable (fold_left MemStorage.perform calls this).
Proof.
  intros [before ->]. exists (before ++ calls). now rewrite fold_left_app.
Qed.

(** Every rate [/api/historical] answers with has been stored: asked
    for up to [maxDays] days, it leaves a store that holds, after the
    rates it held, one rate of the pair for each rate of the answer,
    with its date, in the order of the answer. *)
Theorem historicalHandler_stores_its_answer
        (daysBefore : Z -> Z -> Z)
        (baseCurrency targetCurrency : String.string)
        (parsedDays : option Z) (today : Z) (g : rng)
        (storage : MemStorage.t) :
  MemStorage.reachable storage ->
  (daysParameter parsedDays <= maxDays)%Z ->
  let response :=
    fst (fst (historicalHandler daysBefore baseCurrency targetCurrency
                                parsedDays today g storage)) in
  let storage1 :=
    snd (historicalHandler daysBefore baseCurrency targetCurrency
                           parsedDays today g storage) in
  MemStorage.reachable storage1
  /\ exists saved,
       Map_values (MemStorage.exchangeRateRecords storage1)
       = Map_values (MemStorage.exchangeRateRecords storage) ++ saved
       /\ map (fun r => (ExchangeRate.date r, ExchangeRate.rate r)) saved
          = HistoricalResponse.rates response
       /\ Forall (fun r => ExchangeRate.baseCurrency r = baseCurrency
                           /\ ExchangeRate.targetCurrency r = targetCurrency)
                 saved.
Proof.
  intros R _ response storage1.
  destruct (reachable_in_order storage R) as [_ [_ X]].
  unfold response, storage1, historicalHandler.
  set (baseRate := tableRate baseRates baseCurrency targetCurrency).
  set (n := Z.to_nat (daysParameter parsedDays)).
  destruct (simulateHistory_saves daysBefore baseCurrency targetCurrency
              baseRate today n [] g storage) as [new [E1 E2]].
  destruct (simulateHistory daysBefore baseCurrency targetCurrency baseRate
                            today n [] g storage) as [[rates g1] s1].
  cbn [fst snd HistoricalResponse.rates] in *. subst rates s1.
  split; [now apply reachable_after|].
  apply saves_append. exact X.
Qed.

Lemma historicalHandler_stores_its_answer_witness :
  let g : rng := fun _ => 0.5 in
  let response :=
    fst (fst (historicalHandler utcDaysBefore "USD"%string "EUR"%string
                                (Some 7%Z) 0 g MemStorage.constructor)) in
  let storage1 :=
    snd (historicalHandler utcDaysBefore "USD"%string "EUR"%string
                           (Some 7%Z) 0 g MemStorage.constructor) in
  MemStorage.reachable storage1
  /\ exists saved,
       Map_values (MemStorage.exchangeRateRecords storage1)
       = Map_values (MemStorage.exchangeRateRecords MemStorage.constructor)
         ++ saved
       /\ map (fun r => (ExchangeRate.date r, ExchangeRate.rate r)) saved
          = HistoricalResponse.rates response
       /\ Forall (fun r => ExchangeRate.baseCurrency r = "USD"%string
                           /\ ExchangeRate.targetCurrency r = "EUR"%string)
                 saved.
Proof.
  apply (historicalHandler_stores_its_answer utcDaysBefore
           "USD"%string "EUR"%string (Some 7%Z) 0 (fun _ => 0.5)
           MemStorage.constructor).
  - exists []. reflexivity.
  - discriminate.
Defined.

(* ================================================================== *)
(** ** More on the forecast endpoint                                  *)
(* ================================================================== *)

Lemma push_loop_draws (h : Q -> number) (body : Rand number) :
  (forall g, body g = (h (g 0%nat), fun k => g (S k))) ->
  forall (n : nat) (acc : list number) (g : rng) (k : nat),
    snd (push_loop n body acc g) k = g (n + k)%nat.
Proof.
  intros Hb. induction n as [|n IH]; intros acc g k; simpl.
  - reflexivity.
  - unfold bind. rewrite Hb. now rewrite IH.
Qed.

(** The confidence of the forecast endpoint is computed from one random
    number: the one drawn after the 90 of the simulated history and the
    one of each forecast point. *)
Lemma confidence_of_draw (baseRate : number) (days : Z) (g : rng) :
  confidence (analysis (fst (forecastEndpoint baseRate days g)))
  = Math_floor (Fin 65 + Fin (g (90 + Z.to_nat days)%nat) * Fin 20)%js.
Proof.
  unfold forecastEndpoint.
  set (body := r <- Math_random ;;
               ret (baseRate + (r - Fin 0.5) * Fin 0.06 * baseRate)%js).
  pose proof (push_loop_draws
                (fun r => (baseRate + (Fin r - Fin 0.5) * Fin 0.06 * baseRate)%js)
                body ltac:(intros; reflexivity) 90 [] g) as D1.
  unfold bind at 1.
  destruct (push_loop 90 body [] g) as [history g1]. cbn [snd] in D1.
  unfold bind at 1.
  destruct (generateForecast_run history days g1) as [_ [_ D2]].
  destruct (generateForecast history days g1) as [forecastRates g2].
  cbn [snd] in D2.
  unfold bind, Math_random, ret. cbn [fst analysis confidence].
  rewrite D2, D1, Nat.add_0_r. reflexivity.
Qed.

(** Asked for up to [maxDays] days, the forecast endpoint reports as
    confidence a whole number from 65 to 85 that one random number
    decides alone, the one drawn after the 90 of the simulated history
    and the one of each forecast point: two requests that meet the same
    number there report the same confidence, whatever the pair and the
    other draws. *)
Theorem forecastEndpoint_confidence
        (baseRate baseRate' : number) (days : Z) (g g' : rng) :
  rng_ok g -> (days <= maxDays)%Z ->
  (exists c : Z,
      confidence (analysis (fst (forecastEndpoint baseRate days g)))
      = Fin (inject_Z c)
      /\ (65 <= c <= 85)%Z)
  /\ (g' (90 + Z.to_nat days)%nat = g (90 + Z.to_nat days)%nat ->
      confidence (analysis (fst (forecastEndpoint baseRate' days g')))
      = confidence (analysis (fst (forecastEndpoint baseRate days g)))).
Proof.
  intros Hg _. rewrite !confidence_of_draw. split.
  - set (r := g (90 + Z.to_nat days)%nat).
    assert (Hr : 0 <= r /\ r < 1) by apply Hg.
    exists (Qfloor (65 + r * 20)). cbn [add mul Math_floor].
    split; [reflexivity|].
    pose proof (Qfloor_le (65 + r * 20)) as L.
    pose proof (Qlt_floor (65 + r * 20)) as U.
    rewrite inject_Z_plus in U. change (inject_Z 1) with 1 in U.
    split.
    + assert (H : (64 < Qfloor (65 + r * 20))%Z).
      { rewrite Zlt_Qlt. change (inject_Z 64) with 64. lra. }
      lia.
    + assert (H : (Qfloor (65 + r * 20) < 85)%Z).
      { rewrite Zlt_Qlt. change (inject_Z 85) with 85. lra. }
      lia.
  - intros ->. reflexivity.
Qed.

Lemma forecastEndpoint_confidence_witness :
  let g : rng := fun _ => 0.5 in
  let g' : rng := fun k => if (k =? 93)%nat then 0.5 else 0.25 in
  (exists c : Z,
      confidence (analysis (fst (forecastEndpoint (Fin 0.92) 3 g)))
      = Fin (inject_Z c)
      /\ (65 <= c <= 85)%Z)
  /\ (g' (90 + Z.to_nat 3)%nat = g (90 + Z.to_nat 3)%nat ->
      confidence (analysis (fst (forecastEndpoint (Fin 83.72) 3 g')))
      = confidence (analysis (fst (forecastEndpoint (Fin 0.92) 3 g)))).
Proof.
  apply (forecastEndpoint_confidence (Fin 0.92) (Fin 83.72) 3 (fun _ => 0.5)
           (fun k => if (k =? 93)%nat then 0.5 else 0.25)).
  - intros k. split; [discriminate | reflexivity].
  - discriminate.
Defined.

(** The shape of the answer of the forecast endpoint. *)
Lemma forecastEndpoint_shape (baseRate : number) (days : Z) (g : rng) :
  exists history g1,
    let forecastRates := fst (generateForecast history days g1) in
    forecast (fst (forecastEndpoint baseRate days g))
    = datedForecast forecastRates
    /\ analysis_percentChange (analysis (fst (forecastEndpoint baseRate days g)))
       = toFixed_parsed 2 (forecastPercentChange forecastRates)
    /\ analysis_direction (analysis (fst (forecastEndpoint baseRate days g)))
       = forecastDirection (forecastPercentChange forecastRates).
Proof.
  unfold forecastEndpoint, bind.
  destruct (push_loop 90 _ [] g) as [history g1].
  exists history, g1.
  destruct (generateForecast history days g1) as [forecastRates g2].
  repeat split.
Qed.

(** Asked for up to [maxDays] days, the forecast endpoint answers with
    one point per requested day, dated 1, 2, .. days ahead; without a
    [days] parameter, with one that is not a number and with [days=0]
    that is 30 points; for a negative [days] the forecast is empty, the
    percent change is NaN and the direction is stable. *)
Theorem forecastHandler_points
        (baseCurrency targetCurrency : String.string)
        (parsedDays : option Z) (g : rng) :
  (daysParameter parsedDays <= maxDays)%Z ->
  let response :=
    fst (forecastHandler baseCurrency targetCurrency parsedDays g) in
  map dayOffset (forecast response)
  = seq 1 (Z.to_nat (daysParameter parsedDays))
  /\ (parsedDays = None \/ parsedDays = Some 0%Z ->
      length (forecast response) = 30%nat)
  /\ (forall d, parsedDays = Some d -> (d < 0)%Z ->
        forecast response = []
        /\ analysis_percentChange (analysis response) = NaN
        /\ analysis_direction (analysis response) = stable).
Proof.
  intros _ response. unfold response, forecastHandler.
  destruct (forecastEndpoint_shape (baseRateOf baseCurrency targetCurrency)
              (daysParameter parsedDays) g) as [history [g1 [E1 [E2 E3]]]].
  cbv zeta in E1, E2, E3. rewrite E1, E2, E3.
  destruct (generateForecast_run history (daysParameter parsedDays) g1)
    as [L _].
  set (forecastRates :=
         fst (generateForecast history (daysParameter parsedDays) g1)) in *.
  split; [|split].
  - rewrite datedForecast_offsets, L. reflexivity.
  - intros Hp.
    rewrite <- (length_map dayOffset (datedForecast forecastRates)),
      datedForecast_offsets, length_seq, L.
    destruct Hp as [-> | ->]; reflexivity.
  - intros d Hp Hd.
    assert (E : forecastRates = []).
    { apply length_zero_iff_nil. rewrite L, Hp. destruct d; simpl; lia. }
    rewrite E. repeat split.
Qed.

Lemma forecastHandler_points_witness :
  let g : rng := fun _ => 0.5 in
  let response :=
    fst (forecastHandler "USD"%string "EUR"%string (Some 7%Z) g) in
  map dayOffset (forecast response)
  = seq 1 (Z.to_nat (daysParameter (Some 7%Z)))
  /\ (Some 7%Z = None \/ Some 7%Z = Some 0%Z ->
      length (forecast response) = 30%nat)
  /\ (forall d, Some 7%Z = Some d -> (d < 0)%Z ->
        forecast response = []
        /\ analysis_percentChange (analysis response) = NaN
        /\ analysis_direction (analysis response) = stable).
Proof.
  apply (forecastHandler_points "USD"%string "EUR"%string (Some 7%Z)
           (fun _ => 0.5)).
  discriminate.
Defined.

(* ================================================================== *)
(** ** The handlers that answer from the store                        *)
(* ================================================================== *)

Lemma finite_is_series (l : list number) :
  Forall (fun x => isFinite x = true) l -> exists qs, l = series qs.
Proof.
  induction 1 as [|x rest Hx _ [qs ->]].
  - now exists [].
  - destruct x as [q| | |]; try discriminate. now exists (q :: qs).
Qed.

Lemma StronglySorted_map_date (l : list ExchangeRate.t) :
  StronglySorted (fun a b => (ExchangeRate.date a <= ExchangeRate.date b)%Z) l ->
  StronglySorted Z.le (map ExchangeRate.date l).
Proof.
  induction 1 as [|r rest _ IH Hr]; simpl; constructor; [exact IH|].
  apply Forall_map. exact Hr.
Qed.

(** The rates [getExchangeRates] returns are ordered by date. *)
Lemma getExchangeRates_by_date (daysBefore : Z -> Z -> Z) (now : Z)
      (baseCurrency targetCurrency : String.string) (days : Z)
      (this : MemStorage.t) :
  StronglySorted
    (fun a b => (ExchangeRate.date a <= ExchangeRate.date b)%Z)
    (MemStorage.getExchangeRates daysBefore now baseCurrency targetCurrency
                                 days this).
Proof.
  unfold MemStorage.getExchangeRates. cbv zeta.
  apply (Array_sort_sorted _ _ ExchangeRate.date).
  intros a b. apply ascending_key.
Qed.

(** The rates [getExchangeRates] returns are stored rates. *)
Lemma getExchangeRates_stored (daysBefore : Z -> Z -> Z) (now : Z)
      (baseCurrency targetCurrency : String.string) (days : Z)
      (this : MemStorage.t) (r : ExchangeRate.t) :
  In r (MemStorage.getExchangeRates daysBefore now baseCurrency targetCurrency
                                    days this) ->
  In r (Map_values (MemStorage.exchangeRateRecords this)).
Proof.
  unfold MemStorage.getExchangeRates. cbv zeta. intros Hin.
  apply (Permutation_in _ (Array_sort_perm _ _ _)) in Hin.
  apply filter_In in Hin. tauto.
Qed.

Lemma stored_rates_series (daysBefore : Z -> Z -> Z) (now : Z)
      (baseCurrency targetCurrency : String.string) (days : Z)
      (this : MemStorage.t) :
  (forall r, In r (Map_values (MemStorage.exchangeRateRecords this)) ->
             isFinite (ExchangeRate.rate r) = true) ->
  exists qs,
    map ExchangeRate.rate
        (MemStorage.getExchangeRates daysBefore now baseCurrency targetCurrency
                                     days this)
    = series qs.
Proof.
  intros Hfin. apply finite_is_series. apply Forall_map, Forall_forall.
  intros r Hr. apply Hfin. eapply getExchangeRates_stored; eassumption.
Qed.

(** When the store holds finite rates and a positive number of days up
    to [maxDays] is asked for, [/api/historical] answers from the store
    only when it holds at least that many rates of the pair since the
    target date; the answer then lists them oldest first, and in exact
    arithmetic its statistics are finite with min <= average <= max. *)
Theorem historicalFromStorage_statistics
        (daysBefore : Z -> Z -> Z)
        (baseCurrency targetCurrency : String.string)
        (parsedDays : option Z) (now : Z) (storage : MemStorage.t) :
  (forall r, In r (Map_values (MemStorage.exchangeRateRecords storage)) ->
             isFinite (ExchangeRate.rate r) = true) ->
  (0 < daysParameter parsedDays <= maxDays)%Z ->
  match historicalFromStorage daysBefore baseCurrency targetCurrency
                              parsedDays now storage with
  | None =>
      (Z.of_nat (length (MemStorage.getExchangeRates
                           daysBefore now baseCurrency targetCurrency
                           (daysParameter parsedDays) storage))
       < daysParameter parsedDays)%Z
  | Some response =>
      (daysParameter parsedDays
       <= Z.of_nat (length (HistoricalResponse.rates response)))%Z
      /\ StronglySorted Z.le (map fst (HistoricalResponse.rates response))
      /\ exists mn av mx,
           average (HistoricalResponse.statistics response) = Fin av
           /\ min (HistoricalResponse.statistics response) = Fin mn
           /\ max (HistoricalResponse.statistics response) = Fin mx
           /\ mn <= av /\ av <= mx
  end.
Proof.
  intros Hfin [Hd _]. unfold historicalFromStorage. cbv zeta.
  set (stored := MemStorage.getExchangeRates daysBefore now baseCurrency
                   targetCurrency (daysParameter parsedDays) storage).
  destruct (Z.ltb_spec (Z.of_nat (length stored)) (daysParameter parsedDays))
    as [C | C]; [exact C|].
  cbn [HistoricalResponse.rates HistoricalResponse.statistics].
  rewrite !map_map. cbn [fst snd]. rewrite length_map.
  split; [exact C|]. split.
  - apply StronglySorted_map_date.
    apply (getExchangeRates_by_date daysBefore now baseCurrency
             targetCurrency (daysParameter parsedDays) storage).
  - destruct (stored_rates_series daysBefore now baseCurrency targetCurrency
                (daysParameter parsedDays) storage Hfin) as [qs Eq].
    fold stored in Eq.
    change (map (fun x => ExchangeRate.rate x) stored) with
      (map ExchangeRate.rate stored).
    rewrite Eq.
    assert (Hne : qs <> []).
    { intros ->. apply (f_equal (@length _)) in Eq.
      rewrite length_map in Eq. simpl in Eq. lia. }
    destruct (calculateStatistics_fin qs Hne)
      as [mn [mx [av [Imn [Lmn [Imx [Lmx [Eav [_ Es]]]]]]]]].
    destruct (mean_between qs mn mx Hne Lmn Lmx) as [B1 B2].
    rewrite <- Eav in B1, B2.
    exists mn, av, mx. rewrite Es. repeat split; assumption.
Qed.

Lemma historicalFromStorage_statistics_witness :
  let storage := snd (rateHandler "USD"%string "EUR"%string 0
                                  MemStorage.constructor) in
  match historicalFromStorage utcDaysBefore "USD"%string "EUR"%string
                              (Some 1%Z) 1000 storage with
  | None =>
      (Z.of_nat (length (MemStorage.getExchangeRates
                           utcDaysBefore 1000 "USD"%string "EUR"%string
                           (daysParameter (Some 1%Z)) storage))
       < daysParameter (Some 1%Z))%Z
  | Some response =>
      (daysParameter (Some 1%Z)
       <= Z.of_nat (length (HistoricalResponse.rates response)))%Z
      /\ StronglySorted Z.le (map fst (HistoricalResponse.rates response))
      /\ exists mn av mx,
           average (HistoricalResponse.statistics response) = Fin av
           /\ min (HistoricalResponse.statistics response) = Fin mn
           /\ max (HistoricalResponse.statistics response) = Fin mx
           /\ mn <= av /\ av <= mx
  end.
Proof.
  apply (historicalFromStorage_statistics utcDaysBefore
           "USD"%string "EUR"%string (Some 1%Z) 1000
           (snd (rateHandler "USD"%string "EUR"%string 0
                             MemStorage.constructor))).
  - intros r [<- | []]. reflexivity.
  - split; [reflexivity | discriminate].
Defined.

(** A negative [days] never reaches the rate provider: [/api/historical]
    answers from the store whatever it holds, and when it holds no rate
    of the pair since the target date the statistics of the answer are
    NaN with infinite extremes. *)
Theorem historicalFromStorage_negative_days
        (daysBefore : Z -> Z -> Z)
        (baseCurrency targetCurrency : String.string)
        (d : Z) (now : Z) (storage : MemStorage.t) :
  (d < 0)%Z ->
  exists response,
    historicalFromStorage daysBefore baseCurrency targetCurrency (Some d)
                          now storage = Some response
    /\ (HistoricalResponse.rates response = [] ->
        HistoricalResponse.statistics response
        = {| average := NaN; min := PosInf; max := NegInf;
             volatility := NaN |}).
Proof.
  intros Hd. unfold historicalFromStorage. cbv zeta.
  assert (Ed : daysParameter (Some d) = d) by (destruct d; [lia | lia | reflexivity]).
  rewrite Ed.
  destruct (Z.ltb_spec
              (Z.of_nat (length (MemStorage.getExchangeRates
                                   daysBefore now baseCurrency targetCurrency
                                   d storage))) d) as [C | C]; [lia|].
  eexists. split; [reflexivity|].
  cbn [HistoricalResponse.rates HistoricalResponse.statistics].
  intros E. rewrite E. reflexivity.
Qed.

Lemma historicalFromStorage_negative_days_witness :
  exists response,
    historicalFromStorage utcDaysBefore "USD"%string "EUR"%string
                          (Some (-3)%Z) 0 MemStorage.constructor
    = Some response
    /\ (HistoricalResponse.rates response = [] ->
        HistoricalResponse.statistics response
        = {| average := NaN; min := PosInf; max := NegInf;
             volatility := NaN |}).
Proof.
  apply (historicalFromStorage_negative_days utcDaysBefore
           "USD"%string "EUR"%string (-3) 0 MemStorage.constructor).
  lia.
Defined.

(** From two observations on, the forecast of a finite series consists
    of finite numbers. *)
Lemma generateForecast_finite (ys : list Q) (days : Z) (g : rng) :
  (2 <= length ys)%nat ->
  exists ps,
    fst (generateForecast (series ys) days g) = series ps
    /\ length ps = Z.to_nat days.
Proof.
  intros Hn.
  destruct (linearRegression_fit ys Hn) as [s [b [E _]]].
  destruct (generateForecast_run (series ys) days g) as [L [N _]].
  rewrite E in N. cbn [slope intercept] in N.
  exists (map (fun i => s * (qnat (length (series ys)) - 1 + qnat i + 1) + b
                       + (g i - 0.5) * 0.002)
              (seq 0 (Z.to_nat days))).
  split; [|now rewrite length_map, length_seq].
  apply (nth_ext _ _ NaN NaN).
  - now rewrite L, series_length, length_map, length_seq.
  - intros i Hi. rewrite L in Hi. rewrite (N i Hi).
    rewrite series_nth by (now rewrite length_map, length_seq).
    unfold obs.
    rewrite (nth_indep _ 0
               ((fun i => s * (qnat (length (series ys)) - 1 + qnat i + 1) + b
                          + (g i - 0.5) * 0.002) 0%nat))
      by (now rewrite length_map, length_seq).
    rewrite (map_nth (fun i => s * (qnat (length (series ys)) - 1 + qnat i + 1)
                               + b + (g i - 0.5) * 0.002)).
    rewrite seq_nth by exact Hi. reflexivity.
Qed.

Lemma toFixed_parsed_finite (d : nat) (q : Q) :
  exists r, toFixed_parsed d (Fin q) = Fin r.
Proof.
  unfold toFixed_parsed. destruct (Qle_bool _ _); eexists; reflexivity.
Qed.

(** When the store holds finite rates and a positive number of days up
    to [maxDays] is asked for, [/api/forecast] answers from the store
    exactly when it holds at least seven rates of the pair of the last
    90 days.  The answer then has one rate per day asked for, dated 1, 2,
    .. days ahead, the confidence 75 and the direction of the sign of
    the percent change; in exact arithmetic the rates and the expected
    range are finite. *)
Theorem forecastFromStorage_answer
        (daysBefore : Z -> Z -> Z)
        (baseCurrency targetCurrency : String.string)
        (parsedDays : option Z) (now : Z) (storage : MemStorage.t) (g : rng) :
  (forall r, In r (Map_values (MemStorage.exchangeRateRecords storage)) ->
             isFinite (ExchangeRate.rate r) = true) ->
  (0 < daysParameter parsedDays <= maxDays)%Z ->
  match forecastFromStorage daysBefore baseCurrency targetCurrency parsedDays
                            now storage with
  | None =>
      (length (MemStorage.getExchangeRates
                 daysBefore now baseCurrency targetCurrency 90 storage) < 7)%nat
  | Some run =>
      let response := fst (run g) in
      (7 <= length (MemStorage.getExchangeRates
                      daysBefore now baseCurrency targetCurrency 90 storage))%nat
      /\ map dayOffset (forecast response)
         = seq 1 (Z.to_nat (daysParameter parsedDays))
      /\ Forall (fun point => isFinite (rate point) = true) (forecast response)
      /\ isFinite (expectedLow (analysis response)) = true
      /\ isFinite (expectedHigh (analysis response)) = true
      /\ confidence (analysis response) = Fin 75
      /\ match forecastPercentChange (map rate (forecast response)) with
         | Fin p =>
             (0 < p /\ analysis_direction (analysis response) = up)
             \/ (p < 0 /\ analysis_direction (analysis response) = down)
             \/ (p == 0 /\ analysis_direction (analysis response) = stable)
         | PosInf => analysis_direction (analysis response) = up
         | NegInf => analysis_direction (analysis response) = down
         | NaN => analysis_direction (analysis response) = stable
         end
  end.
Proof.
  intros Hfin [Hd _]. unfold forecastFromStorage. cbv zeta.
  set (stored := MemStorage.getExchangeRates daysBefore now baseCurrency
                   targetCurrency 90 storage).
  destruct (Nat.ltb_spec (length stored) 7) as [C | C]; [exact C|].
  destruct (stored_rates_series daysBefore now baseCurrency targetCurrency
              90 storage Hfin) as [qs Eq].
  fold stored in Eq. rewrite Eq.
  assert (Hn : (2 <= length qs)%nat).
  { apply (f_equal (@length _)) in Eq.
    rewrite length_map, series_length in Eq. lia. }
  destruct (generateForecast_finite qs (daysParameter parsedDays) g Hn)
    as [ps [Ep Lp]].
  unfold bind, ret.
  destruct (generateForecast (series qs) (daysParameter parsedDays) g)
    as [forecastRates g1].
  cbn [fst] in Ep. subst forecastRates.
  cbn [fst forecast analysis].
  assert (Hne : ps <> []) by (destruct ps; [simpl in Lp; lia | discriminate]).
  rewrite datedForecast_rates.
  split; [exact C|]. split; [|split; [|split; [|split; [|split]]]].
  - rewrite datedForecast_offsets, series_length, Lp. reflexivity.
  - apply Forall_forall. intros point Hin.
    assert (Hr : In (rate point) (series ps)).
    { rewrite <- (datedForecast_rates (series ps)). now apply in_map. }
    unfold series in Hr. apply in_map_iff in Hr.
    destruct Hr as [q [<- _]]. reflexivity.
  - unfold forecastAnalysisBySign. cbn [expectedLow].
    destruct (Math_min_series ps Hne) as [m [-> _]].
    destruct (toFixed_parsed_finite 4 m) as [r ->]. reflexivity.
  - unfold forecastAnalysisBySign. cbn [expectedHigh].
    destruct (Math_max_series ps Hne) as [m [-> _]].
    destruct (toFixed_parsed_finite 4 m) as [r ->]. reflexivity.
  - reflexivity.
  - unfold forecastAnalysisBySign. cbn [analysis_direction]. unfold gt.
    destruct (forecastPercentChange (series ps)) as [p| | |];
      try reflexivity.
    destruct (Fin 0 <? Fin p)%js eqn:E1.
    + left. apply lt_fin_true in E1. split; [lra | reflexivity].
    + apply lt_fin_false in E1.
      destruct (Fin p <? Fin 0)%js eqn:E2.
      * right; left. apply lt_fin_true in E2. split; [lra | reflexivity].
      * right; right. apply lt_fin_false in E2.
        split; [lra | reflexivity].
Qed.

Lemma forecastFromStorage_answer_witness :
  let g : rng := fun _ => 0.5 in
  let storage :=
    snd (historicalHandler utcDaysBefore "USD"%string "EUR"%string (Some 7%Z)
                           0 g MemStorage.constructor) in
  match forecastFromStorage utcDaysBefore "USD"%string "EUR"%string
                            (Some 3%Z) 0 storage with
  | None =>
      (length (MemStorage.getExchangeRates
                 utcDaysBefore 0 "USD"%string "EUR"%string 90 storage) < 7)%nat
  | Some run =>
      let response := fst (run g) in
      (7 <= length (MemStorage.getExchangeRates
                      utcDaysBefore 0 "USD"%string "EUR"%string 90 storage))%nat
      /\ map dayOffset (forecast response)
         = seq 1 (Z.to_nat (daysParameter (Some 3%Z)))
      /\ Forall (fun point => isFinite (rate point) = true) (forecast response)
      /\ isFinite (expectedLow (analysis response)) = true
      /\ isFinite (expectedHigh (analysis response)) = true
      /\ confidence (analysis response) = Fin 75
      /\ match forecastPercentChange (map rate (forecast response)) with
         | Fin p =>
             (0 < p /\ analysis_direction (analysis response) = up)
             \/ (p < 0 /\ analysis_direction (analysis response) = down)
             \/ (p == 0 /\ analysis_direction (analysis response) = stable)
         | PosInf => analysis_direction (analysis response) = up
         | NegInf => analysis_direction (analysis response) = down
         | NaN => analysis_direction (analysis response) = stable
         end
  end.
Proof.
  apply (forecastFromStorage_answer utcDaysBefore "USD"%string "EUR"%string
           (Some 3%Z) 0
           (snd (historicalHandler utcDaysBefore "USD"%string "EUR"%string
                                   (Some 7%Z) 0 (fun _ => 0.5)
                                   MemStorage.constructor))
           (fun _ => 0.5)).
  - intros r Hr. vm_compute in Hr.
    repeat (destruct Hr as [<- | Hr]; [reflexivity|]). contradiction.
  - split; [reflexivity | discriminate].
Defined.
